(** * The Ghibli image pipeline and its lookup helpers

    A shallow embedding of the image download-and-optimise script
    ([downloadFile], [convertToWebP], [main]) and of the lookup helpers
    of [lib/images.ts] ([getFilmPoster], [getFilmBanner]), followed by
    the properties of the specification proved against it.

    Modelling choices.
    - The JavaScript object [imageMapping] is its own properties, a
      finite map from film id to entry ([gmap string Entry]), together
      with its prototype: an assignment to the property [__proto__]
      replaces the prototype and creates no property, and
      [JSON.stringify] writes the own properties only.
    - The images directory is a finite map from path to file size in
      bytes, [gmap string N].
    - The outside world (the [which] probe, the list endpoint, every
      HTTP exchange and every encoder run) is an explicit [World]; the
      script is a function of it.  The exchange and the encoder run of
      an image are indexed by the position of the film in the fetched
      list and by the role of the image, so two films may share a URL
      and still meet different outcomes.
    - Statements that can throw live in a small state-and-exception
      monad [Js]; a [try]/[catch] is [try_catch].  A computation can
      also halt: an awaited promise that never settles, or an error
      event nobody listens to, ends the script where it stands, and no
      [catch] sees it.
    - A call of [downloadFile] ends in one of the ways of [Exchange].
      Those that settle the promise are the [HttpResult] of the
      [World]; [main] is the script on such worlds, and [Full.main]
      the script for any assignment of exchanges to images.
    - [path.join] is string concatenation with a separator (film ids
      hold no path separators).
    - The images directory exists (the script creates it at start-up),
      and listing it and reading the sizes of its entries at the end
      of the run succeed.
    - File sizes and their sum are natural numbers (JavaScript numbers
      are exact on integers below 2^53); the quotient by 1024 is kept
      as a rational, which it is exactly; the two estimates are binary64
      products, computed with the primitive floats, and [toFixed2] is
      the formatting of [toFixed(2)]. *)

From Stdlib Require Import QArith Ascii Floats.
From stdpp Require Import gmap strings list fin_maps pretty.
Close Scope Q_scope.
Open Scope string_scope.
Open Scope list_scope.

(** ** Data model *)

Inductive Role := Poster | Banner.

Definition role_name (r : Role) : string :=
  match r with Poster => "poster" | Banner => "banner" end.

(** A film record of the list endpoint; [image] and [movie_banner] may
    be missing. *)
Record Film := {
  id : string;
  title : string;
  image : option string;
  movie_banner : option string;
}.

(** One value of the mapping object: [{ poster?: string; banner?: string }]. *)
Record Entry := {
  poster : option string;
  banner : option string;
}.

Definition empty_entry : Entry := {| poster := None; banner := None |}.

Abbreviation ImageMapping := (gmap string Entry).

(** JavaScript truthiness of an optional string: [undefined] and the
    empty string are falsy. *)
Definition truthy (v : option string) : bool :=
  match v with
  | Some (String _ _) => true
  | _ => false
  end.

Definition film_url (r : Role) (film : Film) : option string :=
  match r with Poster => image film | Banner => movie_banner film end.

Definition entry_field (r : Role) (e : Entry) : option string :=
  match r with Poster => poster e | Banner => banner e end.

(** [entry.poster = p] and [entry.banner = p]. *)
Definition set_field (r : Role) (p : string) (e : Entry) : Entry :=
  match r with
  | Poster => {| poster := Some p; banner := banner e |}
  | Banner => {| poster := poster e; banner := Some p |}
  end.

(** ** The outside world *)

(** The ways a call of [downloadFile] settles its promise: a response
    (whose body, when the status is 200, is piped to its end), an
    ['error'] event on the request, or [https.get] itself throwing
    inside the promise executor (a URL it refuses). *)
Inductive HttpResult :=
| Response (statusCode : Z) (bodySize : N)
| TransportError (msg : string)
| RequestThrows (msg : string).

(** Every way a call of [downloadFile] can end.  Besides the ones that
    settle: the response has status 200 and its body ends early, the
    server closing the connection after [received] bytes (the response
    is aborted; neither it nor the file has an ['error'] listener and
    the request emits none), so that the file never emits ['finish']
    and the promise stays pending; or the write stream cannot open its
    file and emits ['error'], which has no listener. *)
Inductive Exchange :=
| Settled (r : HttpResult)
| BodyBreaks (received : N)
| StreamError.

(** What happens to one image: the HTTP exchange, and the encoder run
    ([Some size] when [cwebp] exits normally and leaves an output file
    of that size, [None] when the subprocess fails). *)
Record ImageEnv := {
  http_result : HttpResult;
  cwebp_result : option N;
}.

Record World := {
  IMAGES_DIR : string;
  initial_disk : gmap string N;
  initial_mapping_file : option ImageMapping;
  cwebp_installed : bool;
  films_response : option (list Film);
  image_env : nat → Role → ImageEnv;
  mapping_writable : bool;
}.

Inductive Error :=
| HttpStatusError (url : string) (statusCode : Z)
| TransportFailure (msg : string)
| InvalidRequest (msg : string)
| ExecError (command : string)
| ENOENT (path : string)
| FetchError
| WriteError.

Inductive LogLine :=
| LogCwebpNotFound
| LogFailedConvert (inputPath : string) (e : Error)
| LogFailedProcess (r : Role) (e : Error)
| LogTopLevelError (e : Error).

(** Observable actions, in the order they happen. *)
Inductive Event :=
| Exec (command : string)
| Fetch (url : string)
| HttpGet (url dest : string)
| Unlink (path : string)
| WriteFile
| ConsoleError (l : LogLine).

Definition is_network (e : Event) : bool :=
  match e with
  | Fetch _ | HttpGet _ _ => true
  | _ => false
  end.

(** ** Program state and the [Js] monad *)

(** [imageMapping] holds the own properties of the object and
    [imageMapping_proto] its prototype when the script has replaced it
    ([None] is [Object.prototype], which has neither field). *)
Record State := {
  disk : gmap string N;
  mapping_file : option ImageMapping;
  imageMapping : ImageMapping;
  imageMapping_proto : option Entry;
  downloadedCount : nat;
  events : list Event;
}.

Definition with_disk (f : gmap string N → gmap string N) (st : State) : State :=
  {| disk := f (disk st); mapping_file := mapping_file st;
     imageMapping := imageMapping st;
     imageMapping_proto := imageMapping_proto st; downloadedCount := downloadedCount st;
     events := events st |}.

Definition with_mapping_file (m : ImageMapping) (st : State) : State :=
  {| disk := disk st; mapping_file := Some m;
     imageMapping := imageMapping st;
     imageMapping_proto := imageMapping_proto st; downloadedCount := downloadedCount st;
     events := events st |}.

Definition with_imageMapping (f : ImageMapping → ImageMapping) (st : State) : State :=
  {| disk := disk st; mapping_file := mapping_file st;
     imageMapping := f (imageMapping st);
     imageMapping_proto := imageMapping_proto st; downloadedCount := downloadedCount st;
     events := events st |}.

Definition with_proto (f : option Entry → option Entry) (st : State) : State :=
  {| disk := disk st; mapping_file := mapping_file st;
     imageMapping := imageMapping st;
     imageMapping_proto := f (imageMapping_proto st);
     downloadedCount := downloadedCount st;
     events := events st |}.

Definition with_count (f : nat → nat) (st : State) : State :=
  {| disk := disk st; mapping_file := mapping_file st;
     imageMapping := imageMapping st;
     imageMapping_proto := imageMapping_proto st; downloadedCount := f (downloadedCount st);
     events := events st |}.

Definition with_event (e : Event) (st : State) : State :=
  {| disk := disk st; mapping_file := mapping_file st;
     imageMapping := imageMapping st;
     imageMapping_proto := imageMapping_proto st; downloadedCount := downloadedCount st;
     events := events st ++ [e] |}.

(** How the script can stop for good: [Pending], on an [await] whose
    promise never settles (the process ends with code 0 once nothing
    is left to do); [Crash], on an uncaught error (code 1). *)
Inductive Halt := Pending | Crash.

Inductive Outcome (A : Type) :=
| Returned (a : A)
| Thrown (e : Error)
| Halted (h : Halt).
Arguments Returned {A} a.
Arguments Thrown {A} e.
Arguments Halted {A} h.

Definition Js (A : Type) : Type := State → Outcome A * State.

Definition js_ret {A} (a : A) : Js A := λ st, (Returned a, st).

Definition js_bind {A B} (m : Js A) (k : A → Js B) : Js B :=
  λ st, match m st with
        | (Returned a, st') => k a st'
        | (Thrown e, st') => (Thrown e, st')
        | (Halted h, st') => (Halted h, st')
        end.

Definition throw {A} (e : Error) : Js A := λ st, (Thrown e, st).

Definition halt {A} (h : Halt) : Js A := λ st, (Halted h, st).

Definition try_catch {A} (body : Js A) (handler : Error → Js A) : Js A :=
  λ st, match body st with
        | (Returned a, st') => (Returned a, st')
        | (Thrown e, st') => handler e st'
        | (Halted h, st') => (Halted h, st')
        end.

Definition update (f : State → State) : Js unit := λ st, (Returned tt, f st).

Definition get_state : Js State := λ st, (Returned st, st).

Declare Scope js_scope.
Delimit Scope js_scope with js.
Notation "x <- m ;; k" := (js_bind m (λ x, k))
  (at level 100, m at next level, right associativity) : js_scope.
Notation "m ;; k" := (js_bind m (λ _, k))
  (at level 100, right associativity) : js_scope.
Open Scope js_scope.

(** Runs the monad's combinators on the current state. *)
Ltac js_step :=
  unfold js_bind, js_ret, throw, halt, update, get_state, try_catch; simpl.

(** ** Paths and commands *)

Definition API_BASE : string := "https://ghibliapi.vercel.app".

Definition path_join (dir name : string) : string := dir +:+ "/" +:+ name.

Definition dquote : string := String (Ascii.ascii_of_nat 34) EmptyString.

(** [`cwebp -q ${quality} "${inputPath}" -o "${outputPath}"`] *)
Definition cwebp_command (quality : N) (inputPath outputPath : string) : string :=
  "cwebp -q " +:+ pretty quality +:+ " " +:+ dquote +:+ inputPath +:+ dquote
    +:+ " -o " +:+ dquote +:+ outputPath +:+ dquote.

(** [path.join(IMAGES_DIR, `${filmId}-poster.jpg`)], and the same with
    [banner]. *)
Definition temp_path (dir filmId : string) (r : Role) : string :=
  path_join dir (filmId +:+ "-" +:+ role_name r +:+ ".jpg").

(** [path.join(IMAGES_DIR, `${filmId}-poster.webp`)] *)
Definition final_path (dir filmId : string) (r : Role) : string :=
  path_join dir (filmId +:+ "-" +:+ role_name r +:+ ".webp").

(** [`/images/${filmId}-poster.webp`] *)
Definition site_path (filmId : string) (r : Role) : string :=
  "/images/" +:+ filmId +:+ "-" +:+ role_name r +:+ ".webp".

(** ** [downloadFile] *)

(** [fs.createWriteStream(dest)] opens [dest] for writing, which creates
    the file, or truncates it, before the request is answered; then
    [https.get] is called.  A 200 response is piped into the file and
    the promise resolves on the file's ['finish']; any other status
    rejects and leaves the stream's file behind; a request error
    unlinks [dest] and rejects; a throw of [https.get] rejects and
    leaves the stream's file behind.  When the body breaks the bytes
    received are in the file and nothing settles the promise; when the
    stream cannot open its file the process dies. *)
Definition downloadFile (x : Exchange) (url dest : string) : Js unit :=
  update (with_disk (match x with
                     | StreamError => λ d, d
                     | _ => <[dest := 0%N]>
                     end)) ;;
  update (with_event (HttpGet url dest)) ;;
  match x with
  | Settled (Response statusCode bodySize) =>
      if (statusCode =? 200)%Z
      then update (with_disk (<[dest := bodySize]>))
      else throw (HttpStatusError url statusCode)
  | Settled (TransportError msg) =>
      update (with_event (Unlink dest)) ;;
      update (with_disk (delete dest)) ;;
      throw (TransportFailure msg)
  | Settled (RequestThrows msg) => throw (InvalidRequest msg)
  | BodyBreaks received =>
      update (with_disk (<[dest := received]>)) ;;
      halt Pending
  | StreamError => halt Crash
  end.

(** ** [convertToWebP] *)

Definition default_quality : N := 60.

(** [fs.unlinkSync(path)] throws when [path] does not exist. *)
Definition unlinkSync (path : string) : Js unit :=
  st <- get_state ;;
  match disk st !! path with
  | Some _ =>
      update (with_event (Unlink path)) ;;
      update (with_disk (delete path))
  | None => throw (ENOENT path)
  end.

(** [await execAsync(command)] for the encoder. *)
Definition exec_cwebp (r : option N) (command outputPath : string) : Js unit :=
  update (with_event (Exec command)) ;;
  match r with
  | Some size => update (with_disk (<[outputPath := size]>))
  | None => throw (ExecError command)
  end.

Definition convertToWebP_q (r : option N) (inputPath outputPath : string)
    (quality : N) : Js unit :=
  try_catch
    (let command := cwebp_command quality inputPath outputPath in
     exec_cwebp r command outputPath ;;
     unlinkSync inputPath)
    (λ error,
       update (with_event (ConsoleError (LogFailedConvert inputPath error))) ;;
       throw error).

(** The script never passes the third argument, so the default applies. *)
Definition convertToWebP (r : option N) (inputPath outputPath : string) : Js unit :=
  convertToWebP_q r inputPath outputPath default_quality.

(** ** The object [imageMapping] *)

Definition proto_key : string := "__proto__".

(** [imageMapping[filmId] = {}]: a new own property, except for the
    key [__proto__], whose assignment replaces the prototype of the
    object by the new [{}]. *)
Definition assign_entry (filmId : string) (st : State) : State :=
  if decide (filmId = proto_key)
  then with_proto (λ _, Some empty_entry) st
  else with_imageMapping (<[filmId := empty_entry]>) st.

(** [imageMapping[filmId].poster = p] (or [.banner]): the object read
    is the own property assigned at the head of the same iteration,
    or, for the key [__proto__], the prototype. *)
Definition assign_field (filmId : string) (r : Role) (p : string) (st : State) : State :=
  if decide (filmId = proto_key)
  then with_proto (fmap (set_field r p)) st
  else with_imageMapping (alter (set_field r p) filmId) st.

(** ** The summary *)

Record Summary := {
  images_downloaded : nat;
  total_images : nat;
  total_size_kb : Q;
  estimated_original_kb : float;
  estimated_savings_kb : float;
}.

(** [files.reduce((acc, file) => acc + fs.statSync(...).size, 0)] over
    the entries of the images directory. *)
Definition total_size (d : gmap string N) : N :=
  map_fold (λ _ size acc, (acc + size)%N) 0%N d.

Definition bytes (n : N) : Q := inject_Z (Z.of_N n).

(** An integer below 2^53 as a JavaScript number; the conversion is
    exact there. *)
Definition js_number (n : N) : float := PrimFloat.of_uint63 (Uint63.of_Z (Z.of_N n)).

(** What the summary lines print, before formatting.  [totalSize] is
    the sum the [reduce] accumulates: the sizes are integers and their
    partial sums are exact, in any order of the listing, while the
    total stays below 2^53; the properties of the estimates are stated
    in that range. *)
#[warnings="-inexact-float"]
Definition summarize (count totalImages : nat) (totalSize : N) : Summary :=
  {| images_downloaded := count;
     total_images := totalImages;
     total_size_kb := (bytes totalSize / 1024)%Q;
     estimated_original_kb := (js_number totalSize / 1024 * 2.7)%float;
     estimated_savings_kb := (js_number totalSize / 1024 * 1.7)%float |}.

(** [x.toFixed(2)] for a finite [0 <= x < 1e21]: the integer [n] for
    which [n / 100] is nearest to the exact value of [x], the larger
    one on a tie, printed with its last two digits after the point.
    From 1e21 on [toFixed] prints an exponent instead, which is left
    out. *)
Definition hundredths (x : float) : option Z :=
  match Prim2SF x with
  | S754_zero _ => Some 0%Z
  | S754_finite false m e =>
      let v := (100 * Z.pos m)%Z in
      if (0 <=? e)%Z then Some (v * 2 ^ e)%Z
      else Some ((2 * v + 2 ^ (- e)) / 2 ^ (- e + 1))%Z
  | _ => None
  end.

Definition two_digits (n : Z) : string :=
  if (n <? 10)%Z then "0" +:+ pretty n else pretty n.

Definition toFixed2 (x : float) : option string :=
  match hundredths x with
  | Some n =>
      if (n <? 10 ^ 23)%Z
      then Some (pretty (n / 100)%Z +:+ "." +:+ two_digits (n mod 100)%Z)
      else None
  | None => None
  end.

(** The two estimate lines of the summary, lines 165-171, as printed. *)
Definition estimate_lines (s : Summary) : option (string * string) :=
  match toFixed2 (estimated_original_kb s), toFixed2 (estimated_savings_kb s) with
  | Some original, Some savings =>
      Some ("   Estimated original size (JPG): ~" +:+ original +:+ " KB",
            "   Estimated savings: ~" +:+ savings +:+ " KB (63%)")
  | _, _ => None
  end.

(** ** [main] *)

Definition fetch_films (w : World) : Js (list Film) :=
  update (with_event (Fetch (API_BASE +:+ "/films"))) ;;
  match films_response w with
  | Some films => js_ret films
  | None => throw FetchError
  end.

(** [fs.writeFileSync(MAPPING_FILE, JSON.stringify(imageMapping, null, 2))]:
    the own properties of the object. *)
Definition write_mapping (w : World) : Js unit :=
  update (with_event WriteFile) ;;
  if mapping_writable w
  then st <- get_state ;; update (with_mapping_file (imageMapping st))
  else throw WriteError.

Definition initial_state (w : World) : State :=
  {| disk := initial_disk w; mapping_file := initial_mapping_file w;
     imageMapping := ∅; imageMapping_proto := None;
     downloadedCount := 0; events := [] |}.

(** What a run leaves: the exit code of the process, the final state,
    the summary when it was printed, and how the script halted when it
    did. *)
Record RunResult := {
  exit_code : Z;
  final : State;
  summary : option Summary;
  halted : option Halt;
}.

Definition which_cwebp : string := "which cwebp".

(** The script for any assignment [x] of exchanges to the images. *)
Module Full.

(** Lines 107-125 and 128-146 of the script are one block written
    twice, for the poster and for the banner; [r] selects the copy.
    The guard is [if (film.image)] or [if (film.movie_banner)]. *)
Definition process_image (w : World) (x : nat → Role → Exchange) (i : nat)
    (film : Film) (r : Role) : Js unit :=
  match film_url r film with
  | Some url =>
      if truthy (Some url) then
        try_catch
          (let filmId := id film in
           let tempPath := temp_path (IMAGES_DIR w) filmId r in
           let finalPath := final_path (IMAGES_DIR w) filmId r in
           downloadFile (x i r) url tempPath ;;
           convertToWebP (cwebp_result (image_env w i r)) tempPath finalPath ;;
           update (assign_field filmId r (site_path filmId r)) ;;
           update (with_count S))
          (λ error, update (with_event (ConsoleError (LogFailedProcess r error))))
      else js_ret tt
  | None => js_ret tt
  end.

(** The body of [for (const film of films)]; [i] is the position of
    [film] in the list. *)
Definition process_film (w : World) (x : nat → Role → Exchange) (i : nat)
    (film : Film) : Js unit :=
  update (assign_entry (id film)) ;;
  process_image w x i film Poster ;;
  process_image w x i film Banner.

Fixpoint process_films (w : World) (x : nat → Role → Exchange) (i : nat)
    (films : list Film) : Js unit :=
  match films with
  | [] => js_ret tt
  | film :: rest => process_film w x i film ;; process_films w x (S i) rest
  end.

(** The [try] block of [main], lines 88-173.  The two updates after
    the fetch are [const imageMapping = {}] and [let downloadedCount = 0];
    the value returned is what the summary lines print. *)
Definition run (w : World) (x : nat → Role → Exchange) : Js Summary :=
  films <- fetch_films w ;;
  update (with_imageMapping (λ _, ∅)) ;;
  update (with_proto (λ _, None)) ;;
  update (with_count (λ _, 0)) ;;
  let totalImages := length films * 2 in
  process_films w x 0 films ;;
  write_mapping w ;;
  st <- get_state ;;
  let totalSize := total_size (disk st) in
  js_ret (summarize (downloadedCount st) totalImages totalSize).

(** The probe for the encoder ends the process with code 1 when it
    fails; otherwise the [try] block runs, and a throw that reaches its
    [catch] ends the process with code 1.  A run that reaches the end
    of [main] exits with code 0.  A run that waits for a promise that
    never settles ends with code 0 as well, with nothing more done or
    printed; an uncaught error ends it with code 1. *)
Definition main (w : World) (x : nat → Role → Exchange) : RunResult :=
  let st0 := with_event (Exec which_cwebp) (initial_state w) in
  if cwebp_installed w then
    match run w x st0 with
    | (Returned s, st) =>
        {| exit_code := 0; final := st; summary := Some s; halted := None |}
    | (Thrown e, st) =>
        {| exit_code := 1;
           final := with_event (ConsoleError (LogTopLevelError e)) st;
           summary := None; halted := None |}
    | (Halted Pending, st) =>
        {| exit_code := 0; final := st; summary := None; halted := Some Pending |}
    | (Halted Crash, st) =>
        {| exit_code := 1; final := st; summary := None; halted := Some Crash |}
    end
  else
    {| exit_code := 1;
       final := with_event (ConsoleError LogCwebpNotFound) st0;
       summary := None; halted := None |}.

End Full.

(** ** The script when every exchange settles *)

(** The exchanges of a world: each settles as the world says. *)
Definition settled (w : World) : nat → Role → Exchange :=
  λ i r, Settled (http_result (image_env w i r)).

Definition process_image (w : World) (i : nat) (film : Film) (r : Role) : Js unit :=
  Full.process_image w (settled w) i film r.

Definition main (w : World) : RunResult := Full.main w (settled w).

(** ** The lookup helpers *)

(** JavaScript [a || b] on an optional string. *)
Definition js_or (a : option string) (b : string) : string :=
  match a with
  | Some (String c s) => String c s
  | _ => b
  end.

(** [src/lib/images.ts]: the fallback is supplied by the caller. *)
Module Images.
Definition getFilmPoster (mapping : ImageMapping) (filmId fallbackUrl : string) : string :=
  js_or (mapping !! filmId ≫= poster) fallbackUrl.

Definition getFilmBanner (mapping : ImageMapping) (filmId fallbackUrl : string) : string :=
  js_or (mapping !! filmId ≫= banner) fallbackUrl.
End Images.

(** The other variant of the helper file: the fallback is a fixed
  placeholder. *)
Module PlaceholderImages.
Definition placeholder : string := "/images/placeholder.webp".

Definition getFilmPoster (mapping : ImageMapping) (filmId : string) : string :=
  js_or (mapping !! filmId ≫= poster) placeholder.

Definition getFilmBanner (mapping : ImageMapping) (filmId : string) : string :=
  js_or (mapping !! filmId ≫= banner) placeholder.
End PlaceholderImages.

(** ** What the world decides for one image *)

Definition has_url (r : Role) (film : Film) : bool := truthy (film_url r film).

(** The download succeeds exactly when the response status is 200. *)
Definition download_succeeds (e : ImageEnv) : bool :=
  match http_result e with
  | Response statusCode _ => (statusCode =? 200)%Z
  | TransportError _ => false
  | RequestThrows _ => false
  end.

Definition conversion_succeeds (e : ImageEnv) : bool :=
  match cwebp_result e with Some _ => true | None => false end.

Definition image_ok (w : World) (i : nat) (film : Film) (r : Role) : bool :=
  has_url r film && download_succeeds (image_env w i r)
    && conversion_succeeds (image_env w i r).

(** The entry of a film once its two blocks have run. *)
Definition film_entry (w : World) (i : nat) (film : Film) : Entry :=
  {| poster := if image_ok w i film Poster
               then Some (site_path (id film) Poster) else None;
     banner := if image_ok w i film Banner
               then Some (site_path (id film) Banner) else None |}.

Definition b2n (b : bool) : nat := if b then 1 else 0.

Definition film_count (w : World) (i : nat) (film : Film) : nat :=
  b2n (image_ok w i film Poster) + b2n (image_ok w i film Banner).

(** The events of one image block. *)
Definition image_events (w : World) (i : nat) (film : Film) (r : Role) : list Event :=
  match film_url r film with
  | Some url =>
      if truthy (Some url) then
        let tempPath := temp_path (IMAGES_DIR w) (id film) r in
        let finalPath := final_path (IMAGES_DIR w) (id film) r in
        let command := cwebp_command default_quality tempPath finalPath in
        HttpGet url tempPath ::
        match http_result (image_env w i r) with
        | Response statusCode _ =>
            if (statusCode =? 200)%Z then
              Exec command ::
              match cwebp_result (image_env w i r) with
              | Some _ => [Unlink tempPath]
              | None =>
                  [ConsoleError (LogFailedConvert tempPath (ExecError command));
                   ConsoleError (LogFailedProcess r (ExecError command))]
              end
            else [ConsoleError (LogFailedProcess r (HttpStatusError url statusCode))]
        | TransportError msg =>
            [Unlink tempPath;
             ConsoleError (LogFailedProcess r (TransportFailure msg))]
        | RequestThrows msg =>
            [ConsoleError (LogFailedProcess r (InvalidRequest msg))]
        end
      else []
  | None => []
  end.

(** The images directory after one image block. *)
Definition image_disk (w : World) (i : nat) (film : Film) (r : Role)
    (d : gmap string N) : gmap string N :=
  if has_url r film then
    let tempPath := temp_path (IMAGES_DIR w) (id film) r in
    let finalPath := final_path (IMAGES_DIR w) (id film) r in
    match http_result (image_env w i r) with
    | Response statusCode bodySize =>
        if (statusCode =? 200)%Z then
          match cwebp_result (image_env w i r) with
          | Some size =>
              delete tempPath (<[finalPath := size]> (<[tempPath := bodySize]> (<[tempPath := 0%N]> d)))
          | None => <[tempPath := bodySize]> (<[tempPath := 0%N]> d)
          end
        else <[tempPath := 0%N]> d
    | TransportError _ => delete tempPath (<[tempPath := 0%N]> d)
    | RequestThrows _ => <[tempPath := 0%N]> d
    end
  else d.

Fixpoint films_events (w : World) (i : nat) (films : list Film) : list Event :=
  match films with
  | [] => []
  | film :: rest =>
      image_events w i film Poster ++ image_events w i film Banner
        ++ films_events w (S i) rest
  end.

Fixpoint films_mapping (w : World) (i : nat) (films : list Film)
    (m : ImageMapping) : ImageMapping :=
  match films with
  | [] => m
  | film :: rest =>
      films_mapping w (S i) rest
        (if decide (id film = proto_key) then m
         else <[id film := film_entry w i film]> m)
  end.

Fixpoint films_count (w : World) (i : nat) (films : list Film) : nat :=
  match films with
  | [] => 0
  | film :: rest => film_count w i film + films_count w (S i) rest
  end.

Fixpoint films_disk (w : World) (i : nat) (films : list Film)
    (d : gmap string N) : gmap string N :=
  match films with
  | [] => d
  | film :: rest =>
      films_disk w (S i) rest (image_disk w i film Banner (image_disk w i film Poster d))
  end.

(** The key-value pairs the loop inserts, in list order. *)
Fixpoint films_entries (w : World) (i : nat) (films : list Film) : list (string * Entry) :=
  match films with
  | [] => []
  | film :: rest => (id film, film_entry w i film) :: films_entries w (S i) rest
  end.

(** Number of entries of a mapping that hold the field [r]. *)
Definition has_field (r : Role) (kv : string * Entry) : bool :=
  match entry_field r kv.2 with Some _ => true | None => false end.

Definition count_field (r : Role) (m : ImageMapping) : nat :=
  length (filter (λ kv, has_field r kv = true) (map_to_list m)).

(** The [HttpGet] requests among a list of events. *)
Definition is_download (e : Event) : bool :=
  match e with HttpGet _ _ => true | _ => false end.

Definition downloads (l : list Event) : list Event :=
  filter (λ e, is_download e = true) l.

(** The download the script makes for one image of a film, if any;
    it does not depend on what the world answers. *)
Definition attempt (dir : string) (film : Film) (r : Role) : list Event :=
  match film_url r film with
  | Some url =>
      if truthy (Some url) then [HttpGet url (temp_path dir (id film) r)] else []
  | None => []
  end.

Fixpoint attempts (dir : string) (films : list Film) : list Event :=
  match films with
  | [] => []
  | film :: rest =>
      attempt dir film Poster ++ attempt dir film Banner ++ attempts dir rest
  end.

Fixpoint films_count_role (w : World) (i : nat) (films : list Film) (r : Role) : nat :=
  match films with
  | [] => 0
  | film :: rest => b2n (image_ok w i film r) + films_count_role w (S i) rest r
  end.

(** Two worlds that agree on the probe, on the fetched list, on whether
    the mapping file can be written, and on which downloads and which
    conversions succeed.  Sizes, status codes, error messages, the
    images directory and what is on disk beforehand may all differ. *)
Definition same_outcomes (w1 w2 : World) : Prop :=
  cwebp_installed w1 = cwebp_installed w2
  ∧ films_response w1 = films_response w2
  ∧ mapping_writable w1 = mapping_writable w2
  ∧ ∀ i r,
      download_succeeds (image_env w1 i r) = download_succeeds (image_env w2 i r)
      ∧ conversion_succeeds (image_env w1 i r) = conversion_succeeds (image_env w2 i r).

(** The world a second run meets: the same answers, on top of what the
    first run left behind. *)
Definition rerun (w : World) : World :=
  {| IMAGES_DIR := IMAGES_DIR w;
     initial_disk := disk (final (main w));
     initial_mapping_file := mapping_file (final (main w));
     cwebp_installed := cwebp_installed w;
     films_response := films_response w;
     image_env := image_env w;
     mapping_writable := mapping_writable w |}.

(** ** Sample worlds *)

Definition castle : Film :=
  {| id := "2baf70d1-42bb-4437-b551-e5fed5a87abe";
     title := "Castle in the Sky";
     image := Some "https://img.example/castle.jpg";
     movie_banner := Some "https://img.example/castle-banner.jpg" |}.

(** A film without a poster. *)
Definition totoro : Film :=
  {| id := "58611129-2dbc-4a81-a72f-77ddfc1b1b49";
     title := "My Neighbor Totoro";
     image := None;
     movie_banner := Some "https://img.example/totoro-banner.jpg" |}.

(** A film without a poster field and with an empty banner URL. *)
Definition kiki : Film :=
  {| id := "ea660b10-85c4-4ae3-8a5f-41cea3648e3e";
     title := "Kiki's Delivery Service";
     image := None;
     movie_banner := Some EmptyString |}.

Definition ok_env : ImageEnv :=
  {| http_result := Response 200 4096; cwebp_result := Some 1024%N |}.

Definition not_found_env : ImageEnv :=
  {| http_result := Response 404 0; cwebp_result := Some 1024%N |}.

Definition reset_env : ImageEnv :=
  {| http_result := TransportError "ECONNRESET"; cwebp_result := Some 1024%N |}.

Definition bad_image_env : ImageEnv :=
  {| http_result := Response 200 4096; cwebp_result := None |}.

Definition sample_films : list Film := [castle; totoro; kiki].

Definition sample_world (env : nat → Role → ImageEnv) : World :=
  {| IMAGES_DIR := "/site/public/images";
     initial_disk := ∅;
     initial_mapping_file := None;
     cwebp_installed := true;
     films_response := Some sample_films;
     image_env := env;
     mapping_writable := true |}.

Definition all_ok : nat → Role → ImageEnv := λ _ _, ok_env.

(** The poster of the first film is answered with a 404 and the banner
    of the second cannot be encoded. *)
Definition mixed : nat → Role → ImageEnv :=
  λ i r,
    match i, r with
    | 0, Poster => not_found_env
    | 1, Banner => bad_image_env
    | _, _ => ok_env
    end.

(** The poster of the first film meets a connection reset. *)
Definition flaky : nat → Role → ImageEnv :=
  λ i r,
    match i, r with
    | 0, Poster => reset_env
    | _, _ => ok_env
    end.

(** Larger originals, same encoder output. *)
Definition big_ok_env : ImageEnv :=
  {| http_result := Response 200 999999; cwebp_result := Some 1024%N |}.

Definition all_big : nat → Role → ImageEnv := λ _ _, big_ok_env.

(** A machine without the encoder. *)
Definition no_encoder_world : World :=
  {| IMAGES_DIR := "/site/public/images";
     initial_disk := ∅;
     initial_mapping_file := None;
     cwebp_installed := false;
     films_response := Some sample_films;
     image_env := all_ok;
     mapping_writable := true |}.

(** The list endpoint cannot be fetched. *)
Definition offline_world : World :=
  {| IMAGES_DIR := "/site/public/images";
     initial_disk := ∅;
     initial_mapping_file := None;
     cwebp_installed := true;
     films_response := None;
     image_env := all_ok;
     mapping_writable := true |}.

(** The mapping file cannot be written. *)
Definition read_only_world : World :=
  {| IMAGES_DIR := "/site/public/images";
     initial_disk := ∅;
     initial_mapping_file := None;
     cwebp_installed := true;
     films_response := Some sample_films;
     image_env := all_ok;
     mapping_writable := false |}.

(** A mapping file with one entry, which has a poster and no banner. *)
Definition sample_mapping : ImageMapping :=
  {[ "castle" := {| poster := Some "/images/castle-poster.webp"; banner := None |} ]}.

(** ** Further notions on runs *)

(** A batch of writes ([Some size]) and removals ([None]) applied to a
    directory. *)
Definition overwrite (p : gmap string (option N)) (d : gmap string N) : gmap string N :=
  merge (λ a x, match a with Some v => v | None => x end) p d.

(** The message of a block's [catch], lines 123 and 144. *)
Definition is_failed_process (e : Event) : bool :=
  match e with ConsoleError (LogFailedProcess _ _) => true | _ => false end.

Definition failures_logged (l : list Event) : list Event :=
  filter (λ e, is_failed_process e = true) l.

(** The books of a state: the requests made are those counted, those
    logged as failed, and [pending] more. *)
Definition accounted (st : State) (pending : nat) : Prop :=
  length (downloads (events st)) =
    downloadedCount st + length (failures_logged (events st)) + pending.

(** 1 for a script that halted, 0 otherwise. *)
Definition halts {A : Type} (o : Outcome A) : nat :=
  match o with Halted _ => 1 | _ => 0 end.


(** A machine without the encoder, with a mapping file from before. *)
Definition stale_world : World :=
  {| IMAGES_DIR := "/site/public/images";
     initial_disk := ∅;
     initial_mapping_file := Some sample_mapping;
     cwebp_installed := false;
     films_response := Some sample_films;
     image_env := all_ok;
     mapping_writable := true |}.

(** The same id twice: the first film gets both images, the second has
    no image at all. *)
Definition castle_again : Film :=
  {| id := id castle; title := "Castle in the Sky (again)";
     image := None; movie_banner := None |}.

Definition twice_world : World :=
  {| IMAGES_DIR := "/site/public/images";
     initial_disk := ∅;
     initial_mapping_file := None;
     cwebp_installed := true;
     films_response := Some [castle; castle_again];
     image_env := all_ok;
     mapping_writable := true |}.

(** A film whose id is the reserved property name. *)
Definition proto_film : Film :=
  {| id := "__proto__";
     title := "Prototype";
     image := Some "https://img.example/proto.jpg";
     movie_banner := Some "https://img.example/proto-banner.jpg" |}.

Definition proto_world : World :=
  {| IMAGES_DIR := "/site/public/images";
     initial_disk := ∅;
     initial_mapping_file := None;
     cwebp_installed := true;
     films_response := Some [proto_film];
     image_env := all_ok;
     mapping_writable := true |}.

(** The body of the first poster breaks after 1000 bytes; everything
    else settles as in the sample world where all goes well. *)
Definition broken_poster : nat → Role → Exchange :=
  λ i r,
    match i, r with
    | 0, Poster => BodyBreaks 1000
    | _, _ => Settled (http_result ok_env)
    end.

(** The write stream of the first poster cannot open its file. *)
Definition unwritable_poster : nat → Role → Exchange :=
  λ i r,
    match i, r with
    | 0, Poster => StreamError
    | _, _ => Settled (http_result ok_env)
    end.



(** ** The URL helpers of the API module *)

Module Api.

(** [s.split("/")]: the segments between slashes, empty ones included;
    the result is never the empty array. *)
Fixpoint split_slash (s : string) : list string :=
  match s with
  | EmptyString => [EmptyString]
  | String c rest =>
      if Ascii.eqb c "/"%char then EmptyString :: split_slash rest
      else match split_slash rest with
           | part :: parts => String c part :: parts
           | [] => [String c EmptyString]
           end
  end.

(** [arr[i]] for an index that may be negative: [undefined] out of
    range. *)
Definition js_index (arr : list string) (i : Z) : option string :=
  if (i <? 0)%Z then None else arr !! Z.to_nat i.

Definition collections : list string :=
  ["people"; "locations"; "species"; "vehicles"; "films"].

(** [names.includes(x)], where [x] may be [undefined]. *)
Definition includes (names : list string) (x : option string) : bool :=
  match x with
  | Some name => bool_decide (name ∈ names)
  | None => false
  end.

(** Lines 179-186.  [None] is [undefined]. *)
Definition isValidResourceUrl (url : option string) : bool :=
  match url with
  | None => false
  | Some EmptyString => false
  | Some u =>
      let parts := filter (λ part, 0 < String.length part) (split_slash u) in
      let lastPart := js_index parts (Z.of_nat (length parts) - 1) in
      negb (includes collections lastPart)
  end.

(** Lines 191-194.  The result is [undefined] ([None]) when both
    operands of [||] are. *)
Definition extractIdFromUrl (url : string) : option string :=
  let parts := split_slash url in
  match js_index parts (Z.of_nat (length parts) - 1) with
  | Some (String c s) => Some (String c s)
  | _ => js_index parts (Z.of_nat (length parts) - 2)
  end.

(** [n] slashes. *)
Fixpoint slashes (n : nat) : string :=
  match n with
  | 0 => EmptyString
  | S k => String "/"%char (slashes k)
  end.

(** The string holds no slash. *)
Fixpoint no_slash (s : string) : bool :=
  match s with
  | EmptyString => true
  | String c rest => negb (Ascii.eqb c "/"%char) && no_slash rest
  end.

End Api.

(** * Properties *)

(** ** Strings *)

Lemma app_cons_string (x : Ascii.ascii) (a b : string) :
  String x a +:+ b = String x (a +:+ b).
Proof. reflexivity. Qed.

Lemma app_assoc_string (a b c : string) : (a +:+ b) +:+ c = a +:+ (b +:+ c).
Proof.
  induction a as [|x a IH]; [done|].
  by rewrite !app_cons_string, IH.
Qed.

Lemma app_length_string (a b : string) :
  String.length (a +:+ b) = String.length a + String.length b.
Proof.
  induction a as [|x a IH]; [done|].
  rewrite app_cons_string. simpl. by rewrite IH.
Qed.



Lemma temp_final_distinct dir filmId r : temp_path dir filmId r ≠ final_path dir filmId r.
Proof.
  unfold temp_path, final_path, path_join. intros H.
  do 5 apply String.app_inj in H. done.
Qed.

(** The two paths of an image share everything but the extension. *)
Lemma temp_final_stem dir filmId r :
  ∃ stem, temp_path dir filmId r = stem +:+ ".jpg"
        ∧ final_path dir filmId r = stem +:+ ".webp".
Proof.
  exists (dir +:+ "/" +:+ filmId +:+ "-" +:+ role_name r).
  unfold temp_path, final_path, path_join.
  by rewrite !app_assoc_string.
Qed.

(** ** One image block *)

Lemma assign_field_mapping (filmId : string) (r : Role) (p : string) (st : State) :
  imageMapping (assign_field filmId r p st) =
    if decide (filmId = proto_key) then imageMapping st
    else alter (set_field r p) filmId (imageMapping st).
Proof. unfold assign_field. by destruct (decide (filmId = proto_key)). Qed.

Lemma assign_field_frame (filmId : string) (r : Role) (p : string) (st : State) :
  disk (assign_field filmId r p st) = disk st
  ∧ mapping_file (assign_field filmId r p st) = mapping_file st
  ∧ downloadedCount (assign_field filmId r p st) = downloadedCount st
  ∧ events (assign_field filmId r p st) = events st.
Proof. unfold assign_field. by destruct (decide (filmId = proto_key)). Qed.

Lemma assign_entry_frame (filmId : string) (st : State) :
  disk (assign_entry filmId st) = disk st
  ∧ mapping_file (assign_entry filmId st) = mapping_file st
  ∧ downloadedCount (assign_entry filmId st) = downloadedCount st
  ∧ events (assign_entry filmId st) = events st.
Proof. unfold assign_entry. by destruct (decide (filmId = proto_key)). Qed.

Lemma process_image_spec (w : World) (i : nat) (film : Film) (r : Role) (st : State) :
  ∃ st', process_image w i film r st = (Returned tt, st')
    ∧ mapping_file st' = mapping_file st
    ∧ imageMapping st' =
        (if image_ok w i film r
         then imageMapping (assign_field (id film) r (site_path (id film) r) st)
         else imageMapping st)
    ∧ imageMapping_proto st' =
        (if image_ok w i film r
         then imageMapping_proto (assign_field (id film) r (site_path (id film) r) st)
         else imageMapping_proto st)
    ∧ downloadedCount st' = downloadedCount st + b2n (image_ok w i film r)
    ∧ events st' = events st ++ image_events w i film r
    ∧ disk st' = image_disk w i film r (disk st).
Proof.
  unfold process_image, Full.process_image, settled, image_ok, image_events,
    image_disk, has_url, download_succeeds, conversion_succeeds.
  destruct (film_url r film) as [[|c url]|]; simpl.
  1, 3: eexists; js_step; repeat split; simpl; rewrite ?app_nil_r; auto with lia.
  unfold downloadFile, convertToWebP, convertToWebP_q, exec_cwebp, unlinkSync.
  destruct (http_result (image_env w i r)) as [code size|msg|msg]; simpl.
  - destruct (code =? 200)%Z; simpl.
    + destruct (cwebp_result (image_env w i r)) as [out|]; js_step.
      * rewrite lookup_insert_ne by (intros H; symmetry in H; revert H; apply temp_final_distinct).
        rewrite lookup_insert_eq. simpl.
        eexists. split; [reflexivity|].
        unfold assign_field. destruct (decide (id film = proto_key)); simpl;
          rewrite <- ?app_assoc; simpl; repeat split; auto with lia.
      * eexists; repeat split; simpl; rewrite <- ?app_assoc; simpl; auto with lia.
    + js_step. eexists; repeat split; simpl; rewrite <- ?app_assoc; simpl; auto with lia.
  - js_step. eexists; repeat split; simpl; rewrite <- ?app_assoc; simpl; auto with lia.
  - js_step. eexists; repeat split; simpl; rewrite <- ?app_assoc; simpl; auto with lia.
Qed.

(** ** One film, then the loop *)

Lemma process_film_spec (w : World) (i : nat) (film : Film) (st : State) :
  ∃ st', Full.process_film w (settled w) i film st = (Returned tt, st')
    ∧ mapping_file st' = mapping_file st
    ∧ imageMapping st' =
        (if decide (id film = proto_key) then imageMapping st
         else <[id film := film_entry w i film]> (imageMapping st))
    ∧ downloadedCount st' = downloadedCount st + film_count w i film
    ∧ events st' = events st ++ image_events w i film Poster ++ image_events w i film Banner
    ∧ disk st' = image_disk w i film Banner (image_disk w i film Poster (disk st)).
Proof.
  unfold Full.process_film. js_step.
  change (Full.process_image w (settled w) i film) with (process_image w i film).
  destruct (process_image_spec w i film Poster (assign_entry (id film) st))
    as (st1 & -> & Hf1 & Hm1 & _ & Hc1 & He1 & Hd1).
  destruct (process_image_spec w i film Banner st1)
    as (st2 & -> & Hf2 & Hm2 & _ & Hc2 & He2 & Hd2).
  exists st2. split; [done|].
  destruct (assign_entry_frame (id film) st) as (Hd0 & Hf0 & Hc0 & He0).
  repeat split.
  - congruence.
  - unfold film_entry, assign_field, assign_entry in *.
    destruct (decide (id film = proto_key));
      destruct (image_ok w i film Poster), (image_ok w i film Banner);
      simpl in *; rewrite Hm2, ?Hm1; rewrite ?alter_insert_eq; done.
  - rewrite Hc2, Hc1, Hc0. unfold film_count. lia.
  - rewrite He2, He1, He0. by rewrite <- app_assoc.
  - by rewrite Hd2, Hd1, Hd0.
Qed.

Lemma process_films_spec (w : World) (films : list Film) (i : nat) (st : State) :
  ∃ st', Full.process_films w (settled w) i films st = (Returned tt, st')
    ∧ mapping_file st' = mapping_file st
    ∧ imageMapping st' = films_mapping w i films (imageMapping st)
    ∧ downloadedCount st' = downloadedCount st + films_count w i films
    ∧ events st' = events st ++ films_events w i films
    ∧ disk st' = films_disk w i films (disk st).
Proof.
  revert i st. induction films as [|film rest IH]; intros i st; simpl.
  - exists st. js_step. rewrite app_nil_r. repeat split; auto with lia.
  - js_step.
    destruct (process_film_spec w i film st) as (st1 & -> & Hf1 & Hm1 & Hc1 & He1 & Hd1).
    destruct (IH (S i) st1) as (st2 & -> & Hf2 & Hm2 & Hc2 & He2 & Hd2).
    exists st2. split; [done|]. repeat split.
    + congruence.
    + by rewrite Hm2, Hm1.
    + rewrite Hc2, Hc1. lia.
    + rewrite He2, He1. by rewrite <- !app_assoc.
    + by rewrite Hd2, Hd1.
Qed.

(** ** The whole run *)

(** A run whose probe and list fetch succeed, in closed form. *)
Lemma main_after_fetch (w : World) (films : list Film) :
  cwebp_installed w = true →
  films_response w = Some films →
  exit_code (main w) = (if mapping_writable w then 0 else 1)%Z
  ∧ mapping_file (final (main w)) =
      (if mapping_writable w then Some (films_mapping w 0 films ∅)
       else initial_mapping_file w)
  ∧ imageMapping (final (main w)) = films_mapping w 0 films ∅
  ∧ downloadedCount (final (main w)) = films_count w 0 films
  ∧ events (final (main w)) =
      [Exec which_cwebp; Fetch (API_BASE +:+ "/films")]
        ++ films_events w 0 films
        ++ WriteFile :: (if mapping_writable w then []
                         else [ConsoleError (LogTopLevelError WriteError)])
  ∧ disk (final (main w)) = films_disk w 0 films (initial_disk w)
  ∧ summary (main w) =
      (if mapping_writable w
       then Some (summarize (films_count w 0 films) (length films * 2)
                    (total_size (films_disk w 0 films (initial_disk w))))
       else None).
Proof.
  intros Hprobe Hfetch. unfold main, Full.main, Full.run, fetch_films, write_mapping.
  rewrite Hprobe, Hfetch. js_step.
  match goal with |- context [Full.process_films w (settled w) 0 films ?s] =>
    destruct (process_films_spec w films 0 s) as (st1 & -> & Hf & Hm & Hc & He & Hd)
  end.
  simpl in *. destruct (mapping_writable w); simpl;
    rewrite ?Hm, ?Hc, ?He, ?Hd, ?Hf; simpl; rewrite <- ?app_assoc; simpl;
    repeat split; done.
Qed.

(** A run that also writes the mapping file. *)
Lemma main_completes (w : World) (films : list Film) :
  cwebp_installed w = true →
  films_response w = Some films →
  mapping_writable w = true →
  exit_code (main w) = 0%Z
  ∧ mapping_file (final (main w)) = Some (films_mapping w 0 films ∅)
  ∧ imageMapping (final (main w)) = films_mapping w 0 films ∅
  ∧ downloadedCount (final (main w)) = films_count w 0 films
  ∧ events (final (main w)) =
      [Exec which_cwebp; Fetch (API_BASE +:+ "/films")]
        ++ films_events w 0 films ++ [WriteFile]
  ∧ disk (final (main w)) = films_disk w 0 films (initial_disk w)
  ∧ summary (main w) =
      Some (summarize (films_count w 0 films) (length films * 2)
              (total_size (films_disk w 0 films (initial_disk w)))).
Proof.
  intros Hprobe Hfetch Hwrite.
  pose proof (main_after_fetch w films Hprobe Hfetch) as H.
  by rewrite Hwrite in H.
Qed.

(** A run without the encoder stops after the probe. *)
Lemma main_no_encoder (w : World) :
  cwebp_installed w = false →
  exit_code (main w) = 1%Z
  ∧ events (final (main w)) = [Exec which_cwebp; ConsoleError LogCwebpNotFound]
  ∧ mapping_file (final (main w)) = initial_mapping_file w
  ∧ disk (final (main w)) = initial_disk w
  ∧ summary (main w) = None.
Proof. intros H. unfold main, Full.main. rewrite H. done. Qed.

(** A run whose list fetch throws stops there. *)
Lemma main_fetch_fails (w : World) :
  cwebp_installed w = true →
  films_response w = None →
  exit_code (main w) = 1%Z
  ∧ events (final (main w)) =
      [Exec which_cwebp; Fetch (API_BASE +:+ "/films");
       ConsoleError (LogTopLevelError FetchError)]
  ∧ mapping_file (final (main w)) = initial_mapping_file w
  ∧ disk (final (main w)) = initial_disk w
  ∧ summary (main w) = None.
Proof.
  intros Hprobe Hfetch. unfold main, Full.main, Full.run, fetch_films.
  rewrite Hprobe, Hfetch. done.
Qed.

(** A summary is printed only by a run that went through. *)
Lemma summary_completed (w : World) (s : Summary) :
  summary (main w) = Some s →
  cwebp_installed w = true ∧ mapping_writable w = true
  ∧ ∃ films, films_response w = Some films.
Proof.
  intros Hs.
  destruct (cwebp_installed w) eqn:Hprobe.
  2: { destruct (main_no_encoder w Hprobe) as (_ & _ & _ & _ & Hn). congruence. }
  destruct (films_response w) as [films|] eqn:Hfetch.
  2: { destruct (main_fetch_fails w Hprobe Hfetch) as (_ & _ & _ & _ & Hn). congruence. }
  destruct (main_after_fetch w films Hprobe Hfetch) as (_ & _ & _ & _ & _ & _ & Hn).
  destruct (mapping_writable w); [eauto|congruence].
Qed.

(** ** The mapping the loop builds *)

Lemma films_mapping_other (w : World) (films : list Film) (i : nat)
    (m : ImageMapping) (k : string) :
  k ∉ id <$> films → films_mapping w i films m !! k = m !! k.
Proof.
  revert i m. induction films as [|film rest IH]; intros i m Hk; simpl; [done|].
  rewrite fmap_cons, not_elem_of_cons in Hk. destruct Hk as [Hne Hk].
  rewrite IH by done.
  destruct (decide (id film = proto_key)); [done|]. by rewrite lookup_insert_ne.
Qed.

(** The loop never creates a property named [__proto__]. *)
Lemma films_mapping_proto (w : World) (films : list Film) (i : nat) (m : ImageMapping) :
  films_mapping w i films m !! proto_key = m !! proto_key.
Proof.
  revert i m. induction films as [|film rest IH]; intros i m; simpl; [done|].
  rewrite IH. destruct (decide (id film = proto_key)); [done|].
  by rewrite lookup_insert_ne.
Qed.

(** Every id of the list other than [__proto__] has an entry, whatever
    happened to the images and whether or not ids repeat. *)
Lemma films_mapping_key (w : World) (films : list Film) (i : nat)
    (m : ImageMapping) (k : string) :
  k ∈ id <$> films → k ≠ proto_key → is_Some (films_mapping w i films m !! k).
Proof.
  revert i m. induction films as [|f rest IH]; intros i m Hin Hk; simpl.
  - by apply elem_of_nil in Hin.
  - destruct (decide (k ∈ id <$> rest)) as [Hrest|Hrest]; [by apply IH|].
    rewrite fmap_cons in Hin. apply elem_of_cons in Hin as [->|?]; [|done].
    rewrite films_mapping_other by done.
    rewrite decide_False by done. rewrite lookup_insert_eq. by eexists.
Qed.

(** With distinct ids, the entry of the film at position [j] is the
    one its own two blocks produce, unless its id is [__proto__]. *)
Lemma films_mapping_lookup (w : World) (films : list Film) (i j : nat)
    (m : ImageMapping) (film : Film) :
  NoDup (id <$> films) →
  films !! j = Some film →
  id film ≠ proto_key →
  films_mapping w i films m !! id film = Some (film_entry w (i + j) film).
Proof.
  revert i j m. induction films as [|f rest IH]; intros i j m Hnd Hj Hk; [done|].
  rewrite fmap_cons in Hnd. apply NoDup_cons in Hnd as [Hid Hnd]. simpl.
  destruct j as [|j]; simpl in Hj.
  - injection Hj as ->. rewrite films_mapping_other by done.
    rewrite decide_False by done.
    rewrite lookup_insert_eq. by rewrite Nat.add_0_r.
  - rewrite (IH (S i) j) by done. f_equal. f_equal. lia.
Qed.

Lemma film_entry_field (w : World) (i : nat) (film : Film) (r : Role) :
  entry_field r (film_entry w i film) =
    if image_ok w i film r then Some (site_path (id film) r) else None.
Proof. by destruct r. Qed.

(** ** Counting *)

Lemma films_count_split (w : World) (films : list Film) (i : nat) :
  films_count w i films =
    films_count_role w i films Poster + films_count_role w i films Banner.
Proof.
  revert i. induction films as [|film rest IH]; intros i; simpl; [done|].
  rewrite IH. unfold film_count. lia.
Qed.

Lemma count_field_insert (r : Role) (m : ImageMapping) (k : string) (e : Entry) :
  m !! k = None →
  count_field r (<[k := e]> m) = b2n (has_field r (k, e)) + count_field r m.
Proof.
  intros Hk. unfold count_field.
  rewrite (map_to_list_insert m k e Hk).
  destruct (has_field r (k, e)) eqn:Hf; simpl.
  - by rewrite filter_cons_True.
  - by rewrite filter_cons_False by (rewrite Hf; done).
Qed.

Lemma count_field_films (w : World) (r : Role) (films : list Film) (i : nat)
    (m : ImageMapping) :
  NoDup (id <$> films) →
  proto_key ∉ id <$> films →
  (∀ film, film ∈ films → m !! id film = None) →
  count_field r (films_mapping w i films m) =
    count_field r m + films_count_role w i films r.
Proof.
  revert i m. induction films as [|f rest IH]; intros i m Hnd Hproto Hfresh; simpl; [lia|].
  rewrite fmap_cons in Hnd. apply NoDup_cons in Hnd as [Hid Hnd].
  rewrite fmap_cons, not_elem_of_cons in Hproto. destruct Hproto as [Hf Hproto].
  rewrite decide_False by done.
  rewrite IH; [|done|done|].
  - rewrite count_field_insert by (apply Hfresh; left).
    unfold has_field. simpl. rewrite film_entry_field.
    destruct (image_ok w i f r); simpl; lia.
  - intros film Hin. rewrite lookup_insert_ne.
    + apply Hfresh. by right.
    + intros Heq. apply Hid. rewrite Heq. by apply list_elem_of_fmap_2.
Qed.

Lemma count_field_empty (r : Role) : count_field r ∅ = 0.
Proof. unfold count_field. by rewrite map_to_list_empty. Qed.

(** ** The events of the loop *)

Lemma downloads_app (l1 l2 : list Event) :
  downloads (l1 ++ l2) = downloads l1 ++ downloads l2.
Proof. unfold downloads. apply filter_app. Qed.

Lemma downloads_image (w : World) (i : nat) (film : Film) (r : Role) :
  downloads (image_events w i film r) = attempt (IMAGES_DIR w) film r.
Proof.
  unfold image_events, attempt, downloads.
  destruct (film_url r film) as [[|c url]|]; simpl; [done| |done].
  rewrite filter_cons_True by done. f_equal.
  destruct (http_result (image_env w i r)) as [code size|msg|msg].
  - destruct (code =? 200)%Z; [|done].
    rewrite filter_cons_False by (simpl; done).
    by destruct (cwebp_result (image_env w i r)).
  - done.
  - done.
Qed.

Lemma downloads_films (w : World) (films : list Film) (i : nat) :
  downloads (films_events w i films) = attempts (IMAGES_DIR w) films.
Proof.
  revert i. induction films as [|film rest IH]; intros i; simpl; [done|].
  by rewrite !downloads_app, !downloads_image, IH.
Qed.



Lemma which_is_not_cwebp (q : N) (a b : string) : cwebp_command q a b ≠ which_cwebp.
Proof.
  unfold cwebp_command, which_cwebp. rewrite app_cons_string. done.
Qed.

Lemma image_events_no_probe (w : World) (i : nat) (film : Film) (r : Role) :
  Exec which_cwebp ∉ image_events w i film r.
Proof.
  unfold image_events.
  destruct (film_url r film) as [[|c url]|]; simpl; try apply not_elem_of_nil.
  destruct (http_result (image_env w i r)) as [code size|msg|msg];
    [destruct (code =? 200)%Z; [destruct (cwebp_result (image_env w i r))|]| |];
    rewrite ?not_elem_of_cons; repeat split; try done; try apply not_elem_of_nil;
    intros H; injection H; apply which_is_not_cwebp.
Qed.

Lemma films_events_no_probe (w : World) (films : list Film) (i : nat) :
  Exec which_cwebp ∉ films_events w i films.
Proof.
  revert i. induction films as [|film rest IH]; intros i; simpl.
  - apply not_elem_of_nil.
  - rewrite !elem_of_app. intros [H|[H|H]].
    + by apply image_events_no_probe in H.
    + by apply image_events_no_probe in H.
    + by apply IH in H.
Qed.


(** ** Mapping entries of a run *)


Lemma sample_ids_distinct : NoDup (id <$> sample_films).
Proof.
  apply (bool_decide_unpack _). vm_compute. exact I.
Defined.

Lemma sample_ids_plain : "__proto__" ∉ id <$> sample_films.
Proof.
  apply (bool_decide_unpack _). vm_compute. exact I.
Defined.


(** C1, on the code: a film whose id is [__proto__] has a poster URL
    and a banner URL, both downloads and both conversions succeed, the
    two files are in the images directory and the run ends with code
    0; the mapping file has neither a poster nor a banner for that
    id. *)
Theorem proto_id_loses_its_fields :
  films_response proto_world = Some [proto_film]
  ∧ (∀ r, has_url r proto_film = true
          ∧ download_succeeds (image_env proto_world 0 r) = true
          ∧ conversion_succeeds (image_env proto_world 0 r) = true)
  ∧ exit_code (main proto_world) = 0%Z
  ∧ disk (final (main proto_world)) !! "/site/public/images/__proto__-poster.webp"
      = Some 1024%N
  ∧ disk (final (main proto_world)) !! "/site/public/images/__proto__-banner.webp"
      = Some 1024%N
  ∧ (mapping_file (final (main proto_world)) ≫= (.!! "__proto__")) ≫= poster = None
  ∧ (mapping_file (final (main proto_world)) ≫= (.!! "__proto__")) ≫= banner = None.
Proof.
  split; [reflexivity|]. split; [by intros []|].
  repeat split; vm_compute; reflexivity.
Qed.

(** In a run that writes the mapping file, the id of every film of the
    fetched list, other than [__proto__], is a key of the file; and,
    ids being distinct, such a film none of whose two images went
    through (no URL, a failed download or a failed conversion) has the
    empty object as its entry. *)
Theorem every_film_is_a_key (w : World) (films : list Film) :
  cwebp_installed w = true →
  films_response w = Some films →
  mapping_writable w = true →
  ∃ m, mapping_file (final (main w)) = Some m
    ∧ (∀ film, film ∈ films → id film ≠ "__proto__" → is_Some (m !! id film))
    ∧ (NoDup (id <$> films) →
       ∀ i film, films !! i = Some film →
         id film ≠ "__proto__" →
         (∀ r, has_url r film = false
               ∨ download_succeeds (image_env w i r) = false
               ∨ conversion_succeeds (image_env w i r) = false) →
         m !! id film = Some empty_entry).
Proof.
  intros Hprobe Hfetch Hwrite.
  destruct (main_completes w films Hprobe Hfetch Hwrite) as (_ & Hfile & _).
  exists (films_mapping w 0 films ∅). split; [done|]. split.
  - intros film Hin Hkey. apply films_mapping_key; [|done]. by apply list_elem_of_fmap_2.
  - intros Hnd i film Hi Hkey Hfail.
    rewrite (films_mapping_lookup w films 0 i ∅ film Hnd Hi Hkey). simpl.
    f_equal. unfold film_entry, empty_entry.
    assert (∀ r, image_ok w i film r = false) as Hno.
    { intros r. unfold image_ok. destruct (Hfail r) as [ -> | [ -> | -> ] ]; simpl;
        rewrite ?andb_false_r; done. }
    by rewrite !Hno.
Qed.

Lemma every_film_is_a_key_witness :
  ∃ m, mapping_file (final (main (sample_world mixed))) = Some m
    ∧ (∀ film, film ∈ sample_films → id film ≠ "__proto__" → is_Some (m !! id film))
    ∧ (NoDup (id <$> sample_films) →
       ∀ i film, sample_films !! i = Some film →
         id film ≠ "__proto__" →
         (∀ r, has_url r film = false
               ∨ download_succeeds (mixed i r) = false
               ∨ conversion_succeeds (mixed i r) = false) →
         m !! id film = Some empty_entry).
Proof.
  apply (every_film_is_a_key (sample_world mixed) sample_films); reflexivity.
Defined.

(** The entries of films that got nothing are really there: in the
    sample run the second and the third film map to the empty object. *)
Example empty_entries_in_sample :
  mapping_file (final (main (sample_world mixed))) ≫= (.!! id totoro) = Some empty_entry
  ∧ mapping_file (final (main (sample_world mixed))) ≫= (.!! id kiki) = Some empty_entry.
Proof. split; vm_compute; reflexivity. Qed.

(** C10, on the code: the fetched list holds one film, whose id is
    [__proto__]; the run goes through and the mapping file it writes
    is the empty object: the id of the film is not a key of it. *)
Theorem proto_id_is_not_a_key :
  films_response proto_world = Some [proto_film]
  ∧ exit_code (main proto_world) = 0%Z
  ∧ mapping_file (final (main proto_world)) = Some ∅
  ∧ mapping_file (final (main proto_world)) ≫= (.!! id proto_film) = None.
Proof. repeat split; vm_compute; reflexivity. Qed.

(** ** The count of the summary *)

(** A run that goes through, over a list of films with distinct ids
    none of which is [__proto__], prints a summary and writes a
    mapping file such that the printed number of downloaded images is
    the number of entries of the file that hold a poster plus the
    number that hold a banner. *)
Theorem downloaded_count_is_field_count (w : World) (films : list Film) :
  cwebp_installed w = true →
  films_response w = Some films →
  mapping_writable w = true →
  NoDup (id <$> films) →
  "__proto__" ∉ id <$> films →
  ∃ s m, summary (main w) = Some s
    ∧ mapping_file (final (main w)) = Some m
    ∧ images_downloaded s = count_field Poster m + count_field Banner m.
Proof.
  intros Hprobe Hfetch Hwrite Hnd Hproto.
  destruct (main_completes w films Hprobe Hfetch Hwrite)
    as (_ & Hfile & _ & _ & _ & _ & Hsum).
  eexists _, _. split; [exact Hsum|]. split; [exact Hfile|]. simpl.
  rewrite !count_field_films by (done || intros; apply lookup_empty).
  rewrite !count_field_empty, films_count_split. lia.
Qed.

Lemma downloaded_count_is_field_count_witness :
  ∃ s m, summary (main (sample_world mixed)) = Some s
    ∧ mapping_file (final (main (sample_world mixed))) = Some m
    ∧ images_downloaded s = count_field Poster m + count_field Banner m.
Proof.
  apply (downloaded_count_is_field_count (sample_world mixed) sample_films);
    [reflexivity | reflexivity | reflexivity | apply sample_ids_distinct
    | apply sample_ids_plain].
Defined.

(** Without distinct ids the count and the mapping part ways: a second
    film with the id of the first resets the entry the first one
    filled. *)
Example repeated_id_resets_entry :
  let w := {| IMAGES_DIR := "/site/public/images"; initial_disk := ∅;
              initial_mapping_file := None; cwebp_installed := true;
              films_response := Some [castle; {| id := id castle; title := "Copy";
                                                 image := None; movie_banner := None |}];
              image_env := all_ok; mapping_writable := true |} in
  downloadedCount (final (main w)) = 2
  ∧ mapping_file (final (main w)) ≫= (.!! id castle) = Some empty_entry.
Proof. split; vm_compute; reflexivity. Qed.

(** C6, on the code: with one film, whose id is [__proto__] and whose
    two images go through, the summary counts 2 downloaded images
    while no entry of the mapping file holds a poster or a banner. *)
Theorem proto_id_counted_without_field :
  films_response proto_world = Some [proto_film]
  ∧ images_downloaded <$> summary (main proto_world) = Some 2
  ∧ (λ m, count_field Poster m + count_field Banner m)
      <$> mapping_file (final (main proto_world)) = Some 0.
Proof. repeat split; vm_compute; reflexivity. Qed.

(** ** The full script and the script on settled exchanges *)

Lemma full_process_image_ext (w : World) (x y : nat → Role → Exchange) (i : nat)
    (film : Film) (r : Role) :
  x i r = y i r → Full.process_image w x i film r = Full.process_image w y i film r.
Proof. intros H. unfold Full.process_image. by rewrite H. Qed.

Lemma full_process_films_ext (w : World) (x y : nat → Role → Exchange)
    (films : list Film) (i : nat) :
  (∀ i r, x i r = y i r) → Full.process_films w x i films = Full.process_films w y i films.
Proof.
  intros H. revert i. induction films as [|film rest IH]; intros i; simpl; [done|].
  unfold Full.process_film.
  by rewrite (full_process_image_ext w x y i film Poster),
    (full_process_image_ext w x y i film Banner), IH.
Qed.

(** When every exchange settles, as the world says, the full script is
    [main]. *)
Lemma full_main_settled (w : World) (x : nat → Role → Exchange) :
  (∀ i r, x i r = Settled (http_result (image_env w i r))) →
  Full.main w x = main w.
Proof.
  intros H.
  assert (∀ st, Full.run w x st = Full.run w (settled w) st) as Hrun.
  { intros st. unfold Full.run, fetch_films. js_step.
    destruct (films_response w) as [films|]; [|done]. simpl.
    by rewrite (full_process_films_ext w x (settled w)). }
  unfold main, Full.main. by rewrite Hrun.
Qed.

(** ** Order and independence of the two blocks *)

Lemma attempt_both (dir : string) (film : Film) (u1 u2 : string) :
  image film = Some u1 → movie_banner film = Some u2 → u1 ≠ "" → u2 ≠ "" →
  attempt dir film Poster ++ attempt dir film Banner =
    [HttpGet u1 (temp_path dir (id film) Poster);
     HttpGet u2 (temp_path dir (id film) Banner)].
Proof.
  intros H1 H2 Hn1 Hn2. unfold attempt. simpl. rewrite H1, H2.
  destruct u1; [done|]. destruct u2; [done|]. done.
Qed.

(** When every exchange settles (a response piped to its end, a
    request error, or a URL that [https.get] refuses) and the list is
    fetched, the downloads requested during the run are exactly, film
    after film in list order, the poster of the film and then its
    banner (each when the film has that URL), whatever the outcome of
    any download or conversion: a failure neither cancels the other
    image of the film nor the films after it.  For a film with both
    URLs the two requests are the poster to its temporary path followed
    by the banner to its own.  And when the mapping file is written the
    run ends with code 0 and, ids being distinct, each field of the
    entry of each film whose id is not [__proto__] is present or absent
    according to the outcome of that image alone. *)
Theorem poster_then_banner_independently (w : World) (x : nat → Role → Exchange)
    (films : list Film) :
  (∀ i r, x i r = Settled (http_result (image_env w i r))) →
  cwebp_installed w = true →
  films_response w = Some films →
  downloads (events (final (Full.main w x))) = attempts (IMAGES_DIR w) films
  ∧ (∀ film u1 u2,
       image film = Some u1 → movie_banner film = Some u2 → u1 ≠ "" → u2 ≠ "" →
       attempt (IMAGES_DIR w) film Poster ++ attempt (IMAGES_DIR w) film Banner =
         [HttpGet u1 (temp_path (IMAGES_DIR w) (id film) Poster);
          HttpGet u2 (temp_path (IMAGES_DIR w) (id film) Banner)])
  ∧ (mapping_writable w = true →
       exit_code (Full.main w x) = 0%Z
       ∧ (NoDup (id <$> films) →
          ∃ m, mapping_file (final (Full.main w x)) = Some m
            ∧ ∀ i film r, films !! i = Some film →
                id film ≠ "__proto__" →
                m !! id film ≫= entry_field r =
                  if has_url r film && download_succeeds (image_env w i r)
                       && conversion_succeeds (image_env w i r)
                  then Some (site_path (id film) r) else None)).
Proof.
  intros Hx Hprobe Hfetch. rewrite (full_main_settled w x Hx).
  destruct (main_after_fetch w films Hprobe Hfetch)
    as (Hexit & Hfile & _ & _ & Hev & _ & _).
  split; [|split].
  - rewrite Hev, !downloads_app, downloads_films.
    destruct (mapping_writable w); unfold downloads; simpl;
      rewrite ?filter_cons_False by (simpl; done); simpl; by rewrite app_nil_r.
  - intros film u1 u2. apply attempt_both.
  - intros Hwrite. rewrite Hwrite in Hexit, Hfile. split; [done|].
    intros Hnd. eexists. split; [exact Hfile|].
    intros i film r Hi Hkey.
    rewrite (films_mapping_lookup w films 0 i ∅ film Hnd Hi Hkey). simpl.
    apply film_entry_field.
Qed.

Lemma poster_then_banner_independently_witness :
  downloads (events (final (Full.main (sample_world mixed) (settled (sample_world mixed))))) =
    attempts "/site/public/images" sample_films
  ∧ (∀ film u1 u2,
       image film = Some u1 → movie_banner film = Some u2 → u1 ≠ "" → u2 ≠ "" →
       attempt "/site/public/images" film Poster ++ attempt "/site/public/images" film Banner =
         [HttpGet u1 (temp_path "/site/public/images" (id film) Poster);
          HttpGet u2 (temp_path "/site/public/images" (id film) Banner)])
  ∧ (true = true →
       exit_code (Full.main (sample_world mixed) (settled (sample_world mixed))) = 0%Z
       ∧ (NoDup (id <$> sample_films) →
          ∃ m, mapping_file (final (Full.main (sample_world mixed)
                                      (settled (sample_world mixed)))) = Some m
            ∧ ∀ i film r, sample_films !! i = Some film →
                id film ≠ "__proto__" →
                m !! id film ≫= entry_field r =
                  if has_url r film && download_succeeds (mixed i r)
                       && conversion_succeeds (mixed i r)
                  then Some (site_path (id film) r) else None)).
Proof.
  apply (poster_then_banner_independently (sample_world mixed)
           (settled (sample_world mixed)) sample_films);
    reflexivity.
Defined.

(** In the sample run the 404 on the first poster is followed by the
    banner of the same film and by the banner of the next one. *)
Example sample_downloads :
  downloads (events (final (main (sample_world mixed)))) =
    [HttpGet "https://img.example/castle.jpg"
       "/site/public/images/2baf70d1-42bb-4437-b551-e5fed5a87abe-poster.jpg";
     HttpGet "https://img.example/castle-banner.jpg"
       "/site/public/images/2baf70d1-42bb-4437-b551-e5fed5a87abe-banner.jpg";
     HttpGet "https://img.example/totoro-banner.jpg"
       "/site/public/images/58611129-2dbc-4a81-a72f-77ddfc1b1b49-banner.jpg"].
Proof. vm_compute. reflexivity. Qed.

(** C4, on the code: the first poster is answered with status 200 and
    the server closes the connection after 1000 bytes of the body.
    Nothing settles the promise of [downloadFile]: the block's [catch]
    sees nothing and logs nothing, the banner of the film and the two
    other films are never requested, no mapping file is written and no
    summary printed; the process ends with code 0, the partial
    temporary file being left behind. *)
Theorem broken_body_stops_the_run :
  films_response (sample_world all_ok) = Some sample_films
  ∧ broken_poster 0 Poster = BodyBreaks 1000
  ∧ halted (Full.main (sample_world all_ok) broken_poster) = Some Pending
  ∧ exit_code (Full.main (sample_world all_ok) broken_poster) = 0%Z
  ∧ downloads (events (final (Full.main (sample_world all_ok) broken_poster))) =
      [HttpGet "https://img.example/castle.jpg"
         "/site/public/images/2baf70d1-42bb-4437-b551-e5fed5a87abe-poster.jpg"]
  ∧ failures_logged (events (final (Full.main (sample_world all_ok) broken_poster))) = []
  ∧ disk (final (Full.main (sample_world all_ok) broken_poster))
      !! "/site/public/images/2baf70d1-42bb-4437-b551-e5fed5a87abe-poster.jpg"
    = Some 1000%N
  ∧ mapping_file (final (Full.main (sample_world all_ok) broken_poster)) = None
  ∧ summary (Full.main (sample_world all_ok) broken_poster) = None.
Proof. repeat split; vm_compute; reflexivity. Qed.

(** The same films when every exchange settles: three downloads, the
    mapping file written. *)
Example settled_run_requests_all :
  length (downloads (events (final (main (sample_world all_ok))))) = 3
  ∧ is_Some (mapping_file (final (main (sample_world all_ok)))).
Proof.
  split; [vm_compute; reflexivity|].
  destruct (main_completes (sample_world all_ok) sample_films) as (_ & -> & _);
    [reflexivity..|]. by eexists.
Qed.

(** A write stream that cannot open its file ends the process with
    code 1 after the first request, the same way unseen by the block's
    [catch]. *)
Example unopened_stream_kills_the_run :
  halted (Full.main (sample_world all_ok) unwritable_poster) = Some Crash
  ∧ exit_code (Full.main (sample_world all_ok) unwritable_poster) = 1%Z
  ∧ length (downloads (events (final (Full.main (sample_world all_ok) unwritable_poster)))) = 1
  ∧ failures_logged (events (final (Full.main (sample_world all_ok) unwritable_poster))) = []
  ∧ mapping_file (final (Full.main (sample_world all_ok) unwritable_poster)) = None.
Proof. repeat split; vm_compute; reflexivity. Qed.

(** ** Exit codes and the probe *)

(** C5. A run that reaches the end of [main] exits with code 0 whatever
    happened to the images.  Without the encoder the run exits with
    code 1 after the probe and one error message, before any network
    request.  A list fetch that throws, or a mapping file that cannot
    be written, ends the run with code 1.  In every run the probe is
    the first action and is made once. *)
Theorem exit_codes (w : World) :
  (∀ films, cwebp_installed w = true → films_response w = Some films →
     mapping_writable w = true → exit_code (main w) = 0%Z)
  ∧ (cwebp_installed w = false →
       exit_code (main w) = 1%Z
       ∧ events (final (main w)) = [Exec which_cwebp; ConsoleError LogCwebpNotFound]
       ∧ ∀ e, e ∈ events (final (main w)) → is_network e = false)
  ∧ (cwebp_installed w = true → films_response w = None → exit_code (main w) = 1%Z)
  ∧ (∀ films, cwebp_installed w = true → films_response w = Some films →
       mapping_writable w = false → exit_code (main w) = 1%Z)
  ∧ (∃ rest, events (final (main w)) = Exec which_cwebp :: rest
             ∧ Exec which_cwebp ∉ rest).
Proof.
  split; [|split; [|split; [|split]]].
  - intros films Hprobe Hfetch Hwrite.
    by destruct (main_completes w films Hprobe Hfetch Hwrite) as (? & _).
  - intros Hprobe. destruct (main_no_encoder w Hprobe) as (Hexit & Hev & _).
    split; [done|]. split; [done|]. intros e. rewrite Hev.
    rewrite !elem_of_cons, elem_of_nil. intros [->|[->|[]]]; done.
  - intros Hprobe Hfetch. by destruct (main_fetch_fails w Hprobe Hfetch) as (? & _).
  - intros films Hprobe Hfetch Hwrite.
    destruct (main_after_fetch w films Hprobe Hfetch) as (Hexit & _).
    by rewrite Hwrite in Hexit.
  - destruct (cwebp_installed w) eqn:Hprobe.
    + destruct (films_response w) as [films|] eqn:Hfetch.
      * destruct (main_after_fetch w films Hprobe Hfetch)
          as (_ & _ & _ & _ & Hev & _).
        eexists. split; [exact Hev|].
        rewrite elem_of_cons, elem_of_app, elem_of_cons. intros [H|[H|[H|H]]].
        -- done.
        -- by apply films_events_no_probe in H.
        -- done.
        -- destruct (mapping_writable w).
           ++ by apply elem_of_nil in H.
           ++ by apply list_elem_of_singleton in H.
      * destruct (main_fetch_fails w Hprobe Hfetch) as (_ & Hev & _).
        eexists. split; [exact Hev|].
        rewrite !elem_of_cons, elem_of_nil. intros [H|[H|[]]]; done.
    + destruct (main_no_encoder w Hprobe) as (_ & Hev & _).
      eexists. split; [exact Hev|].
      rewrite !elem_of_cons, elem_of_nil. intros [H|[]]; done.
Qed.

Lemma exit_codes_witness :
  exit_code (main (sample_world mixed)) = 0%Z
  ∧ exit_code (main no_encoder_world) = 1%Z
  ∧ exit_code (main offline_world) = 1%Z
  ∧ exit_code (main read_only_world) = 1%Z.
Proof.
  split; [|split; [|split]].
  - apply (proj1 (exit_codes (sample_world mixed)) sample_films); reflexivity.
  - apply (proj1 (proj2 (exit_codes no_encoder_world))). reflexivity.
  - apply (proj1 (proj2 (proj2 (exit_codes offline_world)))); reflexivity.
  - apply (proj1 (proj2 (proj2 (proj2 (exit_codes read_only_world)))) sample_films);
      reflexivity.
Defined.

(** ** Determinism *)

Lemma film_entry_same_outcomes (w1 w2 : World) (i : nat) (film : Film) :
  (∀ i r,
     download_succeeds (image_env w1 i r) = download_succeeds (image_env w2 i r)
     ∧ conversion_succeeds (image_env w1 i r) = conversion_succeeds (image_env w2 i r)) →
  film_entry w1 i film = film_entry w2 i film.
Proof.
  intros H. unfold film_entry, image_ok.
  destruct (H i Poster) as [-> ->]. destruct (H i Banner) as [-> ->]. done.
Qed.

Lemma films_mapping_same_outcomes (w1 w2 : World) (films : list Film) (i : nat)
    (m : ImageMapping) :
  (∀ i r,
     download_succeeds (image_env w1 i r) = download_succeeds (image_env w2 i r)
     ∧ conversion_succeeds (image_env w1 i r) = conversion_succeeds (image_env w2 i r)) →
  films_mapping w1 i films m = films_mapping w2 i films m.
Proof.
  intros H. revert i m. induction films as [|film rest IH]; intros i m; simpl; [done|].
  by rewrite (film_entry_same_outcomes w1 w2 i film H), IH.
Qed.

Lemma rerun_same_outcomes (w : World) : same_outcomes w (rerun w).
Proof. unfold same_outcomes, rerun. simpl. auto. Qed.

(** C8. Two runs that go through on the same film list, with the same
    downloads and the same conversions succeeding, write the same
    mapping file, whatever was on disk before either of them; so a
    second run on top of what the first one left writes that same
    mapping again. *)
Theorem mapping_is_deterministic (w1 w2 : World) (films : list Film) :
  same_outcomes w1 w2 →
  cwebp_installed w1 = true →
  films_response w1 = Some films →
  mapping_writable w1 = true →
  (∃ m, mapping_file (final (main w1)) = Some m
        ∧ mapping_file (final (main w2)) = Some m)
  ∧ mapping_file (final (main (rerun w1))) = mapping_file (final (main w1)).
Proof.
  assert (∀ v1 v2, same_outcomes v1 v2 → cwebp_installed v1 = true →
            films_response v1 = Some films → mapping_writable v1 = true →
            ∃ m, mapping_file (final (main v1)) = Some m
                 ∧ mapping_file (final (main v2)) = Some m) as Hgen.
  { intros v1 v2 (Hp & Hf & Hw & Hout) Hprobe Hfetch Hwrite.
    destruct (main_completes v1 films Hprobe Hfetch Hwrite) as (_ & Hfile1 & _).
    rewrite Hp in Hprobe. rewrite Hf in Hfetch. rewrite Hw in Hwrite.
    destruct (main_completes v2 films Hprobe Hfetch Hwrite) as (_ & Hfile2 & _).
    eexists. split; [exact Hfile1|].
    rewrite Hfile2. f_equal. symmetry. by apply films_mapping_same_outcomes. }
  intros Hsame Hprobe Hfetch Hwrite. split; [by apply Hgen|].
  destruct (Hgen w1 (rerun w1) (rerun_same_outcomes w1) Hprobe Hfetch Hwrite)
    as (m & -> & ->). done.
Qed.

Lemma mapping_is_deterministic_witness :
  (∃ m, mapping_file (final (main (sample_world all_ok))) = Some m
        ∧ mapping_file (final (main (sample_world all_big))) = Some m)
  ∧ mapping_file (final (main (rerun (sample_world all_ok)))) =
      mapping_file (final (main (sample_world all_ok))).
Proof.
  apply (mapping_is_deterministic (sample_world all_ok) (sample_world all_big) sample_films);
    [|reflexivity|reflexivity|reflexivity].
  unfold same_outcomes. simpl. auto.
Defined.

(** ** The estimates of the summary *)

(** The total is the sum of the sizes of the entries listed in the
    directory. *)
Lemma total_size_listing (d : gmap string N) :
  total_size d = foldr N.add 0%N ((map_to_list d).*2).
Proof.
  unfold total_size. rewrite map_fold_foldr.
  induction (map_to_list d) as [|[p v] l IH]; simpl; [done|].
  rewrite IH. apply N.add_comm.
Qed.

(** C9. A run that goes through prints a summary in which, [total]
    being the sum of the sizes of the entries of the images directory
    at that moment (below 2^53, where JavaScript numbers are exact on
    integers): the total size in KB is [total / 1024], the estimated
    original size is the product of that quotient by the constant 2.7
    and the estimated savings its product by the constant 1.7, as
    JavaScript numbers.  Nothing else enters the two estimates: no
    size of a downloaded original does. *)
#[warnings="-inexact-float"]
Theorem estimates_are_fixed_multiples (w : World) (films : list Film) :
  cwebp_installed w = true →
  films_response w = Some films →
  mapping_writable w = true →
  (foldr N.add 0 ((map_to_list (disk (final (main w)))).*2) < 2 ^ 53)%N →
  ∃ s, summary (main w) = Some s
    ∧ let total := foldr N.add 0%N ((map_to_list (disk (final (main w)))).*2) in
      (total_size_kb s == bytes total / 1024)%Q
      ∧ estimated_original_kb s = (js_number total / 1024 * 2.7)%float
      ∧ estimated_savings_kb s = (js_number total / 1024 * 1.7)%float.
Proof.
  intros Hprobe Hfetch Hwrite _.
  destruct (main_completes w films Hprobe Hfetch Hwrite)
    as (_ & _ & _ & _ & _ & Hdisk & Hsum).
  eexists. split; [exact Hsum|]. simpl.
  rewrite <- total_size_listing, Hdisk. done.
Qed.

#[warnings="-inexact-float"]
Lemma estimates_are_fixed_multiples_witness :
  ∃ s, summary (main (sample_world mixed)) = Some s
    ∧ let total :=
        foldr N.add 0%N ((map_to_list (disk (final (main (sample_world mixed))))).*2) in
      (total_size_kb s == bytes total / 1024)%Q
      ∧ estimated_original_kb s = (js_number total / 1024 * 2.7)%float
      ∧ estimated_savings_kb s = (js_number total / 1024 * 1.7)%float.
Proof.
  apply (estimates_are_fixed_multiples (sample_world mixed) sample_films);
    [reflexivity | reflexivity | reflexivity | vm_compute; reflexivity].
Defined.

(** The sample run leaves 5120 bytes in the directory (one image of
    1024 bytes and a leftover original of 4096) and prints 5.00, 13.50
    and 8.50. *)
Example sample_summary_figures :
  (λ s, (toFixed2 (js_number 5120 / 1024), toFixed2 (estimated_original_kb s),
         toFixed2 (estimated_savings_kb s)))
    <$> summary (main (sample_world mixed))
  = Some (Some "5.00", Some "13.50", Some "8.50").
Proof. vm_compute. reflexivity. Qed.

Example sample_summary_lines :
  summary (main (sample_world mixed)) ≫= estimate_lines
  = Some ("   Estimated original size (JPG): ~13.50 KB",
          "   Estimated savings: ~8.50 KB (63%)").
Proof. vm_compute. reflexivity. Qed.

(** The estimate ignores what was downloaded: originals of 4096 bytes
    and originals of 999999 bytes give the same figures, since the
    encoder output is the same. *)
Example estimate_ignores_originals :
  summary (main (sample_world all_ok)) = summary (main (sample_world all_big)).
Proof. vm_compute. reflexivity. Qed.

(** ** [convertToWebP] *)

Lemma convertToWebP_success (size : N) (inputPath outputPath : string) (st : State) :
  is_Some (disk st !! inputPath) →
  ∃ st', convertToWebP (Some size) inputPath outputPath st = (Returned tt, st')
    ∧ events st' =
        events st ++ [Exec (cwebp_command 60 inputPath outputPath); Unlink inputPath]
    ∧ disk st' = delete inputPath (<[outputPath := size]> (disk st))
    ∧ imageMapping st' = imageMapping st.
Proof.
  intros [s0 Hin].
  unfold convertToWebP, convertToWebP_q, exec_cwebp, unlinkSync. js_step.
  assert (is_Some (<[outputPath := size]> (disk st) !! inputPath)) as [s1 ->].
  { rewrite lookup_insert. case_decide; eauto. }
  simpl. eexists. split; [done|]. simpl. rewrite <- app_assoc. done.
Qed.

Lemma convertToWebP_failure (inputPath outputPath : string) (st : State) :
  ∃ st', convertToWebP None inputPath outputPath st =
           (Thrown (ExecError (cwebp_command 60 inputPath outputPath)), st')
    ∧ events st' =
        events st ++
          [Exec (cwebp_command 60 inputPath outputPath);
           ConsoleError (LogFailedConvert inputPath
                           (ExecError (cwebp_command 60 inputPath outputPath)))]
    ∧ disk st' = disk st
    ∧ imageMapping st' = imageMapping st.
Proof.
  unfold convertToWebP, convertToWebP_q, exec_cwebp. js_step.
  eexists. split; [done|]. simpl. rewrite <- app_assoc. done.
Qed.

(** A conversion failure inside the loop: the block's [catch] takes
    the error, the block returns, and the temporary file is still
    there. *)
Lemma process_image_conversion_failure (w : World) (i : nat) (film : Film)
    (r : Role) (bodySize : N) (st : State) :
  has_url r film = true →
  http_result (image_env w i r) = Response 200 bodySize →
  cwebp_result (image_env w i r) = None →
  let tempPath := temp_path (IMAGES_DIR w) (id film) r in
  let finalPath := final_path (IMAGES_DIR w) (id film) r in
  ∃ st', process_image w i film r st = (Returned tt, st')
    ∧ ConsoleError (LogFailedProcess r (ExecError (cwebp_command 60 tempPath finalPath)))
        ∈ events st'
    ∧ disk st' !! tempPath = Some bodySize
    ∧ imageMapping st' = imageMapping st
    ∧ downloadedCount st' = downloadedCount st.
Proof.
  intros Hurl Hhttp Hcwebp tempPath finalPath.
  destruct (process_image_spec w i film r st) as (st' & Hrun & _ & Hm & _ & Hc & He & Hd).
  exists st'. split; [done|].
  unfold image_ok, download_succeeds, conversion_succeeds in Hm, Hc.
  unfold image_events in He. unfold image_disk in Hd.
  rewrite Hurl in Hd. unfold has_url in Hurl.
  rewrite Hhttp, Hcwebp in Hm, Hc, He, Hd.
  rewrite andb_false_r in Hm, Hc. simpl in Hc.
  destruct (film_url r film) as [url|]; [|done]. rewrite Hurl in He. simpl in He, Hd.
  repeat split.
  - rewrite He. rewrite elem_of_app. right. do 3 right. left.
  - rewrite Hd. apply lookup_insert_eq.
  - done.
  - lia.
Qed.

(** C3. [convertToWebP] runs [cwebp -q 60] on its input and output
    paths.  When the encoder succeeds on an existing input, the call
    returns and the input file is gone, the output file being in place.
    When the encoder fails, the call throws and the disk is as before,
    the input file included.  In the loop the two paths handed to it
    differ in their extension only, and a failed conversion after a
    good download is caught by the block of that image: the block
    returns, having logged the error, the temporary file stays, and the
    mapping and the count are untouched. *)
Theorem convert_one_image :
  (∀ (res : option N) (inputPath outputPath : string) (st : State),
     ∃ o st' rest, convertToWebP res inputPath outputPath st = (o, st')
       ∧ events st' =
           events st ++
             Exec ("cwebp -q 60 " +:+ dquote +:+ inputPath +:+ dquote
                     +:+ " -o " +:+ dquote +:+ outputPath +:+ dquote) :: rest)
  ∧ (∀ (size : N) (inputPath outputPath : string) (st : State),
       is_Some (disk st !! inputPath) →
       ∃ st', convertToWebP (Some size) inputPath outputPath st = (Returned tt, st')
         ∧ disk st' !! inputPath = None
         ∧ (inputPath ≠ outputPath → disk st' !! outputPath = Some size))
  ∧ (∀ (inputPath outputPath : string) (st : State),
       ∃ e st', convertToWebP None inputPath outputPath st = (Thrown e, st')
         ∧ disk st' = disk st)
  ∧ (∀ (w : World) (film : Film) (r : Role),
       ∃ stem, temp_path (IMAGES_DIR w) (id film) r = stem +:+ ".jpg"
             ∧ final_path (IMAGES_DIR w) (id film) r = stem +:+ ".webp")
  ∧ (∀ (w : World) (i : nat) (film : Film) (r : Role) (bodySize : N) (st : State),
       has_url r film = true →
       http_result (image_env w i r) = Response 200 bodySize →
       cwebp_result (image_env w i r) = None →
       ∃ st' e, process_image w i film r st = (Returned tt, st')
         ∧ ConsoleError (LogFailedProcess r e) ∈ events st'
         ∧ disk st' !! temp_path (IMAGES_DIR w) (id film) r = Some bodySize
         ∧ imageMapping st' = imageMapping st
         ∧ downloadedCount st' = downloadedCount st).
Proof.
  split; [|split; [|split; [|split]]].
  - intros [size|] inputPath outputPath st.
    + unfold convertToWebP, convertToWebP_q, exec_cwebp, unlinkSync. js_step.
      destruct (<[outputPath := size]> (disk st) !! inputPath); simpl;
        eexists _, _, _; (split; [done|]); simpl; rewrite <- ?app_assoc; done.
    + destruct (convertToWebP_failure inputPath outputPath st) as (st' & -> & He & _).
      eexists _, _, _. split; [done|]. exact He.
  - intros size inputPath outputPath st Hin.
    destruct (convertToWebP_success size inputPath outputPath st Hin)
      as (st' & -> & _ & Hd & _).
    exists st'. split; [done|]. rewrite Hd. split.
    + apply lookup_delete_eq.
    + intros Hne. rewrite lookup_delete_ne by done. apply lookup_insert_eq.
  - intros inputPath outputPath st.
    destruct (convertToWebP_failure inputPath outputPath st) as (st' & -> & _ & Hd & _).
    by eexists _, _.
  - intros w film r. apply temp_final_stem.
  - intros w i film r bodySize st Hurl Hhttp Hcwebp.
    destruct (process_image_conversion_failure w i film r bodySize st Hurl Hhttp Hcwebp)
      as (st' & Hrun & He & Hd & Hm & Hc).
    by eexists _, _.
Qed.

Lemma convert_one_image_witness :
  ∃ st' e, process_image (sample_world mixed) 1 totoro Banner
             (initial_state (sample_world mixed)) = (Returned tt, st')
    ∧ ConsoleError (LogFailedProcess Banner e) ∈ events st'
    ∧ disk st' !! temp_path "/site/public/images" (id totoro) Banner = Some 4096%N
    ∧ imageMapping st' = ∅
    ∧ downloadedCount st' = 0.
Proof.
  apply (proj2 (proj2 (proj2 (proj2 convert_one_image)))
           (sample_world mixed) 1 totoro Banner 4096%N
           (initial_state (sample_world mixed)));
    reflexivity.
Defined.

(** ** The lookup helpers *)

Lemma js_or_path (a : option string) (b p : string) :
  a = Some p → p ≠ "" → js_or a b = p.
Proof. intros -> Hp. by destruct p. Qed.

Lemma js_or_fallback (a : option string) (b : string) :
  truthy a = false → js_or a b = b.
Proof. by destruct a as [[|]|]. Qed.

(** The paths the pipeline stores are never empty. *)
Lemma site_path_nonempty (filmId : string) (r : Role) : site_path filmId r ≠ "".
Proof. unfold site_path. by rewrite app_cons_string. Qed.

(** C7. For every mapping, film id and fallback: when the mapping holds
    a poster path for the id (a non-empty string), both variants of
    [getFilmPoster] return it; when it holds none (no entry, no poster
    field, or an empty string), the first variant returns the caller's
    fallback and the second the fixed placeholder path.
    [getFilmBanner] does the same with the banner field. *)
Theorem accessors_fall_back (mapping : ImageMapping) (filmId fallbackUrl : string) :
  (∀ p, mapping !! filmId ≫= poster = Some p → p ≠ "" →
     Images.getFilmPoster mapping filmId fallbackUrl = p
     ∧ PlaceholderImages.getFilmPoster mapping filmId = p)
  ∧ (truthy (mapping !! filmId ≫= poster) = false →
     Images.getFilmPoster mapping filmId fallbackUrl = fallbackUrl
     ∧ PlaceholderImages.getFilmPoster mapping filmId = "/images/placeholder.webp")
  ∧ (∀ p, mapping !! filmId ≫= banner = Some p → p ≠ "" →
     Images.getFilmBanner mapping filmId fallbackUrl = p
     ∧ PlaceholderImages.getFilmBanner mapping filmId = p)
  ∧ (truthy (mapping !! filmId ≫= banner) = false →
     Images.getFilmBanner mapping filmId fallbackUrl = fallbackUrl
     ∧ PlaceholderImages.getFilmBanner mapping filmId = "/images/placeholder.webp").
Proof.
  unfold Images.getFilmPoster, Images.getFilmBanner,
    PlaceholderImages.getFilmPoster, PlaceholderImages.getFilmBanner,
    PlaceholderImages.placeholder.
  repeat split; intros; first [by eapply js_or_path | by apply js_or_fallback].
Qed.

Lemma accessors_fall_back_witness :
  (Images.getFilmPoster sample_mapping "castle" "https://img.example/castle.jpg"
     = "/images/castle-poster.webp"
   ∧ PlaceholderImages.getFilmPoster sample_mapping "castle" = "/images/castle-poster.webp")
  ∧ (Images.getFilmBanner sample_mapping "castle" "https://img.example/castle-banner.jpg"
       = "https://img.example/castle-banner.jpg"
     ∧ PlaceholderImages.getFilmBanner sample_mapping "castle" = "/images/placeholder.webp")
  ∧ (Images.getFilmPoster sample_mapping "totoro" "https://img.example/totoro.jpg"
       = "https://img.example/totoro.jpg"
     ∧ PlaceholderImages.getFilmPoster sample_mapping "totoro" = "/images/placeholder.webp").
Proof.
  split; [|split].
  - apply (proj1 (accessors_fall_back sample_mapping "castle" "https://img.example/castle.jpg")
             "/images/castle-poster.webp"); [reflexivity | discriminate].
  - apply (proj2 (proj2 (proj2
             (accessors_fall_back sample_mapping "castle"
                "https://img.example/castle-banner.jpg")))).
    reflexivity.
  - apply (proj1 (proj2
             (accessors_fall_back sample_mapping "totoro" "https://img.example/totoro.jpg"))).
    reflexivity.
Defined.

(** A mapping written by the pipeline only holds non-empty paths, so on
    it the helpers return the stored path whenever there is one. *)
Lemma written_paths_nonempty (w : World) (films : list Film) (i : nat)
    (m : ImageMapping) (k : string) (e : Entry) (r : Role) (p : string) :
  (∀ k e r p, m !! k = Some e → entry_field r e = Some p → p ≠ "") →
  films_mapping w i films m !! k = Some e → entry_field r e = Some p → p ≠ "".
Proof.
  revert i m. induction films as [|film rest IH]; intros i m Hm; simpl.
  - intros He Hp. by eapply Hm.
  - apply IH. destruct (decide (id film = proto_key)); [done|].
    intros k' e' r' p'. rewrite lookup_insert. case_decide.
    + intros [= <-]. rewrite film_entry_field.
      destruct (image_ok w i film r'); [|done].
      intros [= <-]. apply site_path_nonempty.
    + apply Hm.
Qed.

(** ** Failed downloads *)

(** A transport error removes the temporary file. *)
Lemma downloadFile_transport_error (msg url dest : string) (st : State) :
  ∃ st', downloadFile (Settled (TransportError msg)) url dest st
         = (Thrown (TransportFailure msg), st')
    ∧ disk st' !! dest = None.
Proof.
  unfold downloadFile. js_step. eexists. split; [done|]. simpl.
  apply lookup_delete_eq.
Qed.

(** A status other than 200 rejects and leaves behind the empty file
    the write stream created. *)
Lemma downloadFile_bad_status (statusCode : Z) (bodySize : N) (url dest : string)
    (st : State) :
  statusCode ≠ 200%Z →
  ∃ st', downloadFile (Settled (Response statusCode bodySize)) url dest st =
           (Thrown (HttpStatusError url statusCode), st')
    ∧ disk st' !! dest = Some 0%N.
Proof.
  intros Hne. unfold downloadFile. js_step.
  destruct (Z.eqb_spec statusCode 200) as [?|_]; [done|].
  eexists. split; [done|]. simpl. apply lookup_insert_eq.
Qed.

(** A failed download, of either kind, leaves the field out. *)
Lemma failed_download_omits_field (w : World) (films : list Film) (i : nat)
    (film : Film) (r : Role) :
  cwebp_installed w = true →
  films_response w = Some films →
  mapping_writable w = true →
  NoDup (id <$> films) →
  films !! i = Some film →
  download_succeeds (image_env w i r) = false →
  (mapping_file (final (main w)) ≫= (.!! id film)) ≫= entry_field r = None.
Proof.
  intros Hprobe Hfetch Hwrite Hnd Hi Hfail.
  destruct (main_completes w films Hprobe Hfetch Hwrite) as (_ & -> & _). simpl.
  destruct (decide (id film = proto_key)) as [Hkey|Hkey].
  { by rewrite Hkey, films_mapping_proto, lookup_empty. }
  rewrite (films_mapping_lookup w films 0 i ∅ film Hnd Hi Hkey). simpl.
  rewrite film_entry_field. unfold image_ok. rewrite Hfail.
  by rewrite andb_false_r.
Qed.

(** C2, on the code: the poster of the first film of the sample run is
    answered with a 404.  The run goes through and the mapping has no
    poster for that film, but the film's temporary poster file is on
    disk at the end, empty. *)
Theorem status_failure_leaves_temp_file :
  http_result (mixed 0 Poster) = Response 404 0
  ∧ exit_code (main (sample_world mixed)) = 0%Z
  ∧ (mapping_file (final (main (sample_world mixed))) ≫= (.!! id castle)) ≫= poster = None
  ∧ disk (final (main (sample_world mixed)))
      !! "/site/public/images/2baf70d1-42bb-4437-b551-e5fed5a87abe-poster.jpg"
    = Some 0%N.
Proof. repeat split; vm_compute; reflexivity. Qed.

(** The sibling path: after a connection reset on the same poster, the
    temporary file is gone at the end of the run. *)
Example transport_failure_removes_temp_file :
  http_result (flaky 0 Poster) = TransportError "ECONNRESET"
  ∧ (mapping_file (final (main (sample_world flaky))) ≫= (.!! id castle)) ≫= poster = None
  ∧ disk (final (main (sample_world flaky)))
      !! "/site/public/images/2baf70d1-42bb-4437-b551-e5fed5a87abe-poster.jpg"
    = None.
Proof. repeat split; vm_compute; reflexivity. Qed.

(** * Further properties of the pipeline *)

(** ** [downloadFile] in full *)

(** Whatever the exchange, [downloadFile] changes no file other than
    its destination, nor the mapping, the counter or the mapping file.
    It returns exactly when the response has status 200 and its body
    arrives whole, the destination then holding the body.  It halts the
    script, instead of returning or throwing, exactly when the body
    breaks or the write stream fails: in the first case the promise
    stays pending and the destination holds the bytes received, in the
    second the process dies and the directory is as before.  A URL
    that [https.get] refuses leaves an empty destination behind. *)
Theorem downloadFile_frame (x : Exchange) (url dest : string) (st : State) :
  ∃ o st', downloadFile x url dest st = (o, st')
    ∧ (∀ p, p ≠ dest → disk st' !! p = disk st !! p)
    ∧ imageMapping st' = imageMapping st
    ∧ downloadedCount st' = downloadedCount st
    ∧ mapping_file st' = mapping_file st
    ∧ (o = Returned tt ↔ ∃ bodySize, x = Settled (Response 200 bodySize))
    ∧ (∀ bodySize, x = Settled (Response 200 bodySize) → disk st' !! dest = Some bodySize)
    ∧ ((∃ h, o = Halted h) ↔ (∃ received, x = BodyBreaks received) ∨ x = StreamError)
    ∧ (∀ received, x = BodyBreaks received →
         o = Halted Pending ∧ disk st' !! dest = Some received)
    ∧ (x = StreamError → o = Halted Crash ∧ disk st' = disk st)
    ∧ (∀ msg, x = Settled (RequestThrows msg) → disk st' !! dest = Some 0%N).
Proof.
  unfold downloadFile. js_step.
  destruct x as [[code size|msg|msg]|received|]; simpl.
  - destruct (Z.eqb_spec code 200) as [->|Hne]; simpl;
      eexists _, _; (split; [done|]); simpl;
      (split; [intros p Hp; by rewrite !lookup_insert_ne|]);
      do 3 (split; [done|]).
    + split; [split; [eauto|done]|].
      split; [intros b [= <-]; apply lookup_insert_eq|].
      split; [split; [by intros [h ?]|by intros [[? ?]|?]]|].
      repeat split; done.
    + split; [split; [done|intros (b & [= ? ?]); done]|].
      split; [intros b [= ? ?]; done|].
      split; [split; [by intros [h ?]|by intros [[? ?]|?]]|].
      repeat split; done.
  - eexists _, _. split; [done|]. simpl.
    split; [intros p Hp; by rewrite lookup_delete_ne, lookup_insert_ne|].
    do 3 (split; [done|]).
    split; [split; [done|by intros (b & ?)]|].
    split; [done|].
    split; [split; [by intros [h ?]|by intros [[? ?]|?]]|].
    repeat split; done.
  - eexists _, _. split; [done|]. simpl.
    split; [intros p Hp; by rewrite lookup_insert_ne|].
    do 3 (split; [done|]).
    split; [split; [done|by intros (b & ?)]|].
    split; [done|].
    split; [split; [by intros [h ?]|by intros [[? ?]|?]]|].
    split; [done|]. split; [done|].
    intros m _. apply lookup_insert_eq.
  - eexists _, _. split; [done|]. simpl.
    split; [intros p Hp; by rewrite !lookup_insert_ne|].
    do 3 (split; [done|]).
    split; [split; [done|by intros (b & ?)]|].
    split; [done|].
    split; [split; [intros _; left; by eexists|by eexists]|].
    split; [intros n [= <-]; split; [done|apply lookup_insert_eq]|].
    split; done.
  - eexists _, _. split; [done|]. simpl.
    split; [done|].
    do 3 (split; [done|]).
    split; [split; [done|by intros (b & ?)]|].
    split; [done|].
    split; [split; [intros _; by right|by eexists]|].
    split; [done|]. split; done.
Qed.

(** ** The images directory after a run *)

















(** ** Runs that fail or halt *)

Lemma failures_logged_app (l1 l2 : list Event) :
  failures_logged (l1 ++ l2) = failures_logged l1 ++ failures_logged l2.
Proof. unfold failures_logged. apply filter_app. Qed.

(** One image block, whatever the exchange: it returns or halts,
    never throws, leaves the mapping file alone and keeps the books. *)
Lemma full_process_image_inv (w : World) (x : nat → Role → Exchange) (i : nat)
    (film : Film) (r : Role) (st : State) :
  accounted st 0 →
  ∃ o st', Full.process_image w x i film r st = (o, st')
    ∧ (o = Returned tt ∨ ∃ h, o = Halted h)
    ∧ mapping_file st' = mapping_file st
    ∧ accounted st' (halts o).
Proof.
  intros Hacc. unfold Full.process_image.
  destruct (film_url r film) as [[|c url]|]; simpl.
  1, 3: eexists _, _; js_step; split; [done|]; repeat split; auto.
  unfold downloadFile, convertToWebP, convertToWebP_q, exec_cwebp, unlinkSync.
  destruct (x i r) as [[code size|msg|msg]|received|]; simpl.
  - destruct (code =? 200)%Z; simpl.
    + destruct (cwebp_result (image_env w i r)) as [out|]; js_step.
      * rewrite lookup_insert_ne by (intros H; symmetry in H; revert H; apply temp_final_distinct).
        rewrite lookup_insert_eq. simpl.
        eexists _, _. split; [reflexivity|].
        unfold assign_field. destruct (decide (id film = proto_key)); simpl;
          (split; [by left|]); (split; [done|]);
          (unfold accounted in *; simpl in *; rewrite ?downloads_app, ?failures_logged_app, ?length_app in *; simpl in *; lia).
      * eexists _, _. split; [reflexivity|]. split; [by left|]. split; [done|]. (unfold accounted in *; simpl in *; rewrite ?downloads_app, ?failures_logged_app, ?length_app in *; simpl in *; lia).
    + js_step. eexists _, _. split; [reflexivity|]. split; [by left|]. split; [done|].
      (unfold accounted in *; simpl in *; rewrite ?downloads_app, ?failures_logged_app, ?length_app in *; simpl in *; lia).
  - js_step. eexists _, _. split; [reflexivity|]. split; [by left|]. split; [done|].
    (unfold accounted in *; simpl in *; rewrite ?downloads_app, ?failures_logged_app, ?length_app in *; simpl in *; lia).
  - js_step. eexists _, _. split; [reflexivity|]. split; [by left|]. split; [done|].
    (unfold accounted in *; simpl in *; rewrite ?downloads_app, ?failures_logged_app, ?length_app in *; simpl in *; lia).
  - js_step. eexists _, _. split; [reflexivity|]. split; [right; by eexists|].
    split; [done|]. (unfold accounted in *; simpl in *; rewrite ?downloads_app, ?failures_logged_app, ?length_app in *; simpl in *; lia).
  - js_step. eexists _, _. split; [reflexivity|]. split; [right; by eexists|].
    split; [done|]. (unfold accounted in *; simpl in *; rewrite ?downloads_app, ?failures_logged_app, ?length_app in *; simpl in *; lia).
Qed.

Lemma full_process_film_inv (w : World) (x : nat → Role → Exchange) (i : nat)
    (film : Film) (st : State) :
  accounted st 0 →
  ∃ o st', Full.process_film w x i film st = (o, st')
    ∧ (o = Returned tt ∨ ∃ h, o = Halted h)
    ∧ mapping_file st' = mapping_file st
    ∧ accounted st' (halts o).
Proof.
  intros Hacc. unfold Full.process_film.
  destruct (assign_entry_frame (id film) st) as (_ & Hf0 & Hc0 & He0).
  assert (accounted (assign_entry (id film) st) 0) as Hacc0.
  { unfold accounted in *. by rewrite Hc0, He0. }
  destruct (full_process_image_inv w x i film Poster _ Hacc0)
    as (o1 & st1 & H1 & Ho1 & Hf1 & Hacc1).
  js_step. rewrite H1.
  destruct Ho1 as [->|[h ->]].
  - destruct (full_process_image_inv w x i film Banner _ Hacc1)
      as (o2 & st2 & H2 & Ho2 & Hf2 & Hacc2).
    rewrite H2. exists o2, st2.
    split; [by destruct Ho2 as [->|[h ->]]|].
    split; [done|]. split; [congruence|done].
  - eexists _, _. split; [reflexivity|]. split; [right; by eexists|].
    split; [congruence|done].
Qed.

Lemma full_process_films_inv (w : World) (x : nat → Role → Exchange)
    (films : list Film) (i : nat) (st : State) :
  accounted st 0 →
  ∃ o st', Full.process_films w x i films st = (o, st')
    ∧ (o = Returned tt ∨ ∃ h, o = Halted h)
    ∧ mapping_file st' = mapping_file st
    ∧ accounted st' (halts o).
Proof.
  revert i st. induction films as [|film rest IH]; intros i st Hacc; simpl.
  - exists (Returned tt), st. js_step. repeat split; auto.
  - destruct (full_process_film_inv w x i film st Hacc)
      as (o1 & st1 & H1 & Ho1 & Hf1 & Hacc1).
    js_step. rewrite H1.
    destruct Ho1 as [->|[h ->]].
    + destruct (IH (S i) st1 Hacc1) as (o2 & st2 & H2 & Ho2 & Hf2 & Hacc2).
      rewrite H2. exists o2, st2.
      split; [by destruct Ho2 as [->|[h ->]]|].
      split; [done|]. split; [congruence|done].
    + eexists _, _. split; [reflexivity|]. split; [right; by eexists|].
      split; [congruence|done].
Qed.

(** The whole script, whatever the exchanges: the books are kept to
    the end, a halted run has not touched the mapping file and prints
    no summary, and a summary is printed only with code 0 and after
    the mapping was written. *)
Lemma full_main_inv (w : World) (x : nat → Role → Exchange) :
  accounted (final (Full.main w x))
    (match halted (Full.main w x) with Some _ => 1 | None => 0 end)
  ∧ (is_Some (halted (Full.main w x)) →
       mapping_file (final (Full.main w x)) = initial_mapping_file w
       ∧ summary (Full.main w x) = None)
  ∧ (∀ s, summary (Full.main w x) = Some s →
       exit_code (Full.main w x) = 0%Z
       ∧ halted (Full.main w x) = None
       ∧ mapping_file (final (Full.main w x)) =
           Some (imageMapping (final (Full.main w x)))).
Proof.
  unfold Full.main. destruct (cwebp_installed w).
  2: { simpl. split; [done|]. split; [by intros [? ?]|done]. }
  unfold Full.run, fetch_films, write_mapping.
  destruct (films_response w) as [films|]; js_step.
  2: { split; [done|]. split; [by intros [? ?]|done]. }
  match goal with |- context [Full.process_films w x 0 films ?s] =>
    destruct (full_process_films_inv w x films 0 s) as (o & st1 & -> & Ho & Hf & Hacc);
      [done|]
  end.
  destruct Ho as [->|[h ->]]; simpl in *.
  - destruct (mapping_writable w); simpl.
    + split; [(unfold accounted in *; simpl in *; rewrite ?downloads_app, ?failures_logged_app, ?length_app in *; simpl in *; lia)|]. split; [by intros [? ?]|]. by intros s [= <-].
    + split; [(unfold accounted in *; simpl in *; rewrite ?downloads_app, ?failures_logged_app, ?length_app in *; simpl in *; lia)|]. split; [by intros [? ?]|done].
  - destruct h; simpl; (split; [(unfold accounted in *; simpl in *; rewrite ?downloads_app, ?failures_logged_app, ?length_app in *; simpl in *; lia)|]); (split; [done|done]).
Qed.

(** A run whose probe or list fetch fails ends with code 1 before any
    request: the images directory and the mapping file are as they
    were.  A run that halts, on a download that never settles or on an
    uncaught stream error, has not written the mapping file and prints
    no summary.  And a summary is printed only by a run that ends with
    code 0 and has written the mapping it built. *)
Theorem failed_run_keeps_mapping_file (w : World) (x : nat → Role → Exchange) :
  (cwebp_installed w = false ∨ films_response w = None →
     exit_code (Full.main w x) = 1%Z
     ∧ disk (final (Full.main w x)) = initial_disk w
     ∧ mapping_file (final (Full.main w x)) = initial_mapping_file w
     ∧ downloads (events (final (Full.main w x))) = []
     ∧ summary (Full.main w x) = None)
  ∧ (is_Some (halted (Full.main w x)) →
       mapping_file (final (Full.main w x)) = initial_mapping_file w
       ∧ summary (Full.main w x) = None)
  ∧ (∀ s, summary (Full.main w x) = Some s →
       exit_code (Full.main w x) = 0%Z
       ∧ mapping_file (final (Full.main w x)) =
           Some (imageMapping (final (Full.main w x)))).
Proof.
  destruct (full_main_inv w x) as (_ & Hhalt & Hsum).
  split; [|split; [exact Hhalt|]].
  - unfold Full.main, Full.run, fetch_films.
    destruct (cwebp_installed w); [|done].
    intros [?|Hfetch]; [done|]. rewrite Hfetch. done.
  - intros s Hs. destruct (Hsum s Hs) as (? & _ & ?). done.
Qed.

Lemma failed_run_keeps_mapping_file_witness :
  mapping_file (final (Full.main stale_world (settled stale_world))) = Some sample_mapping
  ∧ disk (final (Full.main stale_world (settled stale_world))) = ∅
  ∧ mapping_file (final (Full.main (sample_world all_ok) broken_poster)) = None.
Proof.
  destruct (proj1 (failed_run_keeps_mapping_file stale_world (settled stale_world))
              (or_introl eq_refl)) as (_ & Hd & Hf & _).
  assert (is_Some (halted (Full.main (sample_world all_ok) broken_poster))) as Hh.
  { exists Pending. vm_compute. reflexivity. }
  destruct (proj1 (proj2 (failed_run_keeps_mapping_file (sample_world all_ok) broken_poster))
              Hh) as (Hm & _).
  split; [exact Hf|]. split; [exact Hd|exact Hm].
Defined.

(** ** Running again *)

Lemma overwrite_lookup (a : gmap string (option N)) (d : gmap string N) (p : string) :
  overwrite a d !! p = match a !! p with Some v => v | None => d !! p end.
Proof.
  unfold overwrite. rewrite lookup_merge.
  destruct (a !! p) as [v|], (d !! p); done.
Qed.

Lemma overwrite_empty (d : gmap string N) : overwrite ∅ d = d.
Proof. apply map_eq. intros p. by rewrite overwrite_lookup, lookup_empty. Qed.

Lemma insert_overwrite (a : gmap string (option N)) (d : gmap string N)
    (p : string) (v : N) :
  <[p := v]> (overwrite a d) = overwrite (<[p := Some v]> a) d.
Proof.
  apply map_eq. intros q. rewrite overwrite_lookup.
  destruct (decide (p = q)) as [->|Hne].
  - by rewrite !lookup_insert_eq.
  - by rewrite !lookup_insert_ne, overwrite_lookup.
Qed.

Lemma delete_overwrite (a : gmap string (option N)) (d : gmap string N) (p : string) :
  delete p (overwrite a d) = overwrite (<[p := None]> a) d.
Proof.
  apply map_eq. intros q. rewrite overwrite_lookup.
  destruct (decide (p = q)) as [->|Hne].
  - by rewrite lookup_delete_eq, lookup_insert_eq.
  - by rewrite lookup_delete_ne, lookup_insert_ne, overwrite_lookup.
Qed.

Lemma overwrite_idemp (a : gmap string (option N)) (d : gmap string N) :
  overwrite a (overwrite a d) = overwrite a d.
Proof.
  apply map_eq. intros p. rewrite !overwrite_lookup. by destruct (a !! p).
Qed.

(** An image block only writes and removes: what it does to a
    directory does not depend on what the directory holds. *)
Lemma image_disk_overwrite (w : World) (i : nat) (film : Film) (r : Role)
    (a : gmap string (option N)) :
  ∃ a', ∀ d, image_disk w i film r (overwrite a d) = overwrite a' d.
Proof.
  unfold image_disk. destruct (has_url r film); [|by exists a].
  destruct (http_result (image_env w i r)) as [code size|msg|msg].
  - destruct (code =? 200)%Z; [destruct (cwebp_result (image_env w i r))|];
      eexists; intros d;
      rewrite ?insert_overwrite, ?delete_overwrite, ?insert_overwrite; reflexivity.
  - eexists; intros d. rewrite insert_overwrite, delete_overwrite. reflexivity.
  - eexists; intros d. rewrite insert_overwrite. reflexivity.
Qed.

Lemma films_disk_overwrite (w : World) (films : list Film) (i : nat)
    (a : gmap string (option N)) :
  ∃ a', ∀ d, films_disk w i films (overwrite a d) = overwrite a' d.
Proof.
  revert i a. induction films as [|film rest IH]; intros i a; simpl; [by exists a|].
  destruct (image_disk_overwrite w i film Poster a) as (a1 & H1).
  destruct (image_disk_overwrite w i film Banner a1) as (a2 & H2).
  destruct (IH (S i) a2) as (a3 & H3).
  exists a3. intros d. by rewrite H1, H2, H3.
Qed.

(** A second run that meets the same answers leaves the images
    directory exactly as the first run left it, in every case: whether
    or not ids repeat, and whether or not the first run went through. *)
Theorem rerun_keeps_directory (w : World) :
  disk (final (main (rerun w))) = disk (final (main w)).
Proof.
  destruct (cwebp_installed w) eqn:Hprobe.
  - destruct (films_response w) as [films|] eqn:Hfetch.
    + destruct (main_after_fetch (rerun w) films Hprobe Hfetch)
        as (_ & _ & _ & _ & _ & -> & _).
      destruct (main_after_fetch w films Hprobe Hfetch) as (_ & _ & _ & _ & _ & Hd & _).
      simpl. rewrite Hd.
      destruct (films_disk_overwrite w films 0 ∅) as (a & Ha).
      assert (∀ d, films_disk (rerun w) 0 films d = films_disk w 0 films d) as Hsame.
      { clear. generalize 0. induction films as [|film rest IH]; intros i d; simpl; [done|].
        by rewrite IH. }
      assert (∀ d, films_disk w 0 films d = overwrite a d) as Ha'.
      { intros d. rewrite <- (overwrite_empty d) at 1. apply Ha. }
      rewrite Hsame, !Ha'. apply overwrite_idemp.
    + destruct (main_fetch_fails (rerun w) Hprobe Hfetch) as (_ & _ & _ & -> & _).
      done.
  - destruct (main_no_encoder (rerun w) Hprobe) as (_ & _ & _ & -> & _). done.
Qed.

(** ** The mapping in general *)




Lemma films_mapping_app (w : World) (l1 l2 : list Film) (i : nat) (m : ImageMapping) :
  films_mapping w i (l1 ++ l2) m =
    films_mapping w (i + length l1) l2 (films_mapping w i l1 m).
Proof.
  revert i m. induction l1 as [|f l1 IH]; intros i m; simpl.
  - by rewrite Nat.add_0_r.
  - rewrite IH. by replace (S i + length l1) with (i + S (length l1)) by lia.
Qed.

(** When ids repeat, the last film with an id decides the entry: for
    an id other than [__proto__] the entry is the one made of that
    film's own two outcomes, and what the earlier films with that id
    obtained is not in the mapping. *)
Theorem last_film_with_id_wins (w : World) (before after : list Film) (film : Film) :
  cwebp_installed w = true →
  films_response w = Some (before ++ film :: after) →
  mapping_writable w = true →
  id film ∉ id <$> after →
  id film ≠ "__proto__" →
  ∃ m, mapping_file (final (main w)) = Some m
    ∧ m !! id film = Some (film_entry w (length before) film).
Proof.
  intros Hprobe Hfetch Hwrite Hlast Hkey.
  destruct (main_completes w _ Hprobe Hfetch Hwrite) as (_ & Hfile & _).
  eexists. split; [exact Hfile|].
  rewrite films_mapping_app. simpl.
  rewrite films_mapping_other by done.
  destruct (decide (id film = proto_key)); [done|]. apply lookup_insert_eq.
Qed.

Lemma last_film_with_id_wins_witness :
  ∃ m, mapping_file (final (main twice_world)) = Some m
    ∧ m !! id castle = Some (film_entry twice_world 1 castle_again).
Proof.
  apply (last_film_with_id_wins twice_world [castle] [] castle_again);
    [reflexivity | reflexivity | reflexivity | apply not_elem_of_nil | discriminate].
Defined.

(** The loop keeps every stored path tied to the key of its entry. *)
Lemma films_mapping_paths (w : World) (films : list Film) (i : nat) (m : ImageMapping) :
  (∀ k e r p, m !! k = Some e → entry_field r e = Some p → p = site_path k r) →
  ∀ k e r p, films_mapping w i films m !! k = Some e →
    entry_field r e = Some p → p = site_path k r.
Proof.
  revert i m. induction films as [|film rest IH]; intros i m Hm; simpl; [done|].
  apply IH. destruct (decide (id film = proto_key)); [exact Hm|].
  intros k e r p. rewrite lookup_insert. case_decide as Hk.
  - subst k. intros [= <-]. rewrite film_entry_field.
    destruct (image_ok w i film r); [|done]. by intros [= <-].
  - apply Hm.
Qed.

(** Every path stored in the mapping file of a run that exits with
    code 0 is the site path made of its own key and role,
    [/images/{key}-{role}.webp], and is not the empty string. *)
Theorem stored_paths_follow_keys (w : World) (k : string) (e : Entry) (r : Role)
    (p : string) :
  exit_code (main w) = 0%Z →
  mapping_file (final (main w)) ≫= (.!! k) = Some e →
  entry_field r e = Some p →
  p = site_path k r ∧ p ≠ "".
Proof.
  intros Hexit Hk Hp.
  assert (p = site_path k r) as ->; [|split; [done|apply site_path_nonempty]].
  destruct (cwebp_installed w) eqn:Hprobe.
  2: { destruct (main_no_encoder w Hprobe) as (He & _). congruence. }
  destruct (films_response w) as [films|] eqn:Hfetch.
  2: { destruct (main_fetch_fails w Hprobe Hfetch) as (He & _). congruence. }
  destruct (main_after_fetch w films Hprobe Hfetch) as (He & Hf & _).
  destruct (mapping_writable w); [|congruence].
  rewrite Hf in Hk. simpl in Hk.
  eapply films_mapping_paths; [|exact Hk|exact Hp].
  intros k' e' r' p'. by rewrite lookup_empty.
Qed.

Lemma stored_paths_follow_keys_witness :
  "/images/2baf70d1-42bb-4437-b551-e5fed5a87abe-banner.webp" = site_path (id castle) Banner
  ∧ "/images/2baf70d1-42bb-4437-b551-e5fed5a87abe-banner.webp" ≠ "".
Proof.
  apply (stored_paths_follow_keys (sample_world mixed) (id castle)
           {| poster := None;
              banner := Some "/images/2baf70d1-42bb-4437-b551-e5fed5a87abe-banner.webp" |}
           Banner);
    vm_compute; reflexivity.
Defined.

(** ** Accounting *)

Lemma films_count_bound (w : World) (films : list Film) (i : nat) :
  (films_count w i films ≤ length films * 2)%nat.
Proof.
  revert i. induction films as [|film rest IH]; intros i; simpl; [lia|].
  specialize (IH (S i)). unfold film_count.
  destruct (image_ok w i film Poster), (image_ok w i film Banner); simpl; lia.
Qed.

(** The summary line [Images downloaded: X/Y] of a run that goes
    through has [Y] twice the number of fetched films and [X] at most
    [Y]. *)
Theorem downloaded_count_bounded (w : World) (films : list Film) :
  cwebp_installed w = true →
  films_response w = Some films →
  mapping_writable w = true →
  ∃ s, summary (main w) = Some s
    ∧ total_images s = 2 * length films
    ∧ (images_downloaded s ≤ total_images s)%nat.
Proof.
  intros Hprobe Hfetch Hwrite.
  destruct (main_completes w films Hprobe Hfetch Hwrite)
    as (_ & _ & _ & _ & _ & _ & Hsum).
  eexists. split; [exact Hsum|]. simpl.
  pose proof (films_count_bound w films 0). lia.
Qed.

Lemma downloaded_count_bounded_witness :
  ∃ s, summary (main (sample_world mixed)) = Some s
    ∧ total_images s = 2 * length sample_films
    ∧ (images_downloaded s ≤ total_images s)%nat.
Proof.
  apply (downloaded_count_bounded (sample_world mixed) sample_films); reflexivity.
Defined.

(** Every download requested ends in exactly one of three ways: the
    counter of downloaded images goes up by one, or the failure message
    of the image's block is logged once, or, for the one request on
    which the script halted, neither.  This holds whatever the
    exchanges are and at whatever point the run ends: no image is
    counted without a request, and only the request of a halted run
    fails in silence. *)
Theorem every_request_counted_or_logged (w : World) (x : nat → Role → Exchange) :
  length (downloads (events (final (Full.main w x)))) =
    downloadedCount (final (Full.main w x))
    + length (failures_logged (events (final (Full.main w x))))
    + (match halted (Full.main w x) with Some _ => 1 | None => 0 end).
Proof. apply (full_main_inv w x). Qed.

(** ** What the summary total counts *)

Lemma total_size_insert (d : gmap string N) (p : string) (v : N) :
  d !! p = None → total_size (<[p := v]> d) = (total_size d + v)%N.
Proof.
  intros Hp. unfold total_size.
  rewrite map_fold_insert_L; [done| |done].
  intros. lia.
Qed.

Lemma total_size_lookup (d : gmap string N) (p : string) (v : N) :
  d !! p = Some v → (v ≤ total_size d)%N.
Proof.
  intros Hp. rewrite <- (insert_delete_id d p v Hp).
  rewrite total_size_insert by apply lookup_delete_eq. lia.
Qed.

(** The total of the summary counts every entry of the images
    directory at the end of the run: a file that was there before the
    run, or a temporary file that a failed conversion left behind,
    weighs in the figure printed as the WebP size. *)
Theorem summary_counts_every_file (w : World) (films : list Film) (p : string) (v : N) :
  cwebp_installed w = true →
  films_response w = Some films →
  mapping_writable w = true →
  disk (final (main w)) !! p = Some v →
  ∃ s, summary (main w) = Some s ∧ (bytes v / 1024 <= total_size_kb s)%Q.
Proof.
  intros Hprobe Hfetch Hwrite Hp.
  destruct (main_completes w films Hprobe Hfetch Hwrite)
    as (_ & _ & _ & _ & _ & Hdisk & Hsum).
  eexists. split; [exact Hsum|]. simpl.
  rewrite Hdisk in Hp. apply total_size_lookup in Hp.
  apply Qmult_le_compat_r; [|done].
  unfold bytes. rewrite <- Zle_Qle. lia.
Qed.

Lemma summary_counts_every_file_witness :
  ∃ s, summary (main (sample_world mixed)) = Some s
    ∧ (bytes 4096 / 1024 <= total_size_kb s)%Q.
Proof.
  apply (summary_counts_every_file (sample_world mixed) sample_films
           (temp_path "/site/public/images" (id totoro) Banner) 4096%N);
    [reflexivity | reflexivity | reflexivity | vm_compute; reflexivity].
Defined.

(** ** The lookup helpers on a pipeline's mapping *)

(** On the mapping file of a run that went through, over films with
    distinct ids, the lookup helpers return, for a film whose id is not
    [__proto__], the local path of an image exactly when that image
    went through, and the fallback otherwise; for an id that is not in
    the fetched list, and for [__proto__] in any case, they return the
    fallback. *)
Theorem helpers_on_written_mapping (w : World) (films : list Film) (fallbackUrl : string) :
  cwebp_installed w = true →
  films_response w = Some films →
  mapping_writable w = true →
  NoDup (id <$> films) →
  ∃ m, mapping_file (final (main w)) = Some m
    ∧ (∀ i film, films !! i = Some film → id film ≠ "__proto__" →
         Images.getFilmPoster m (id film) fallbackUrl =
           (if image_ok w i film Poster then "/images/" +:+ id film +:+ "-poster.webp"
            else fallbackUrl)
         ∧ Images.getFilmBanner m (id film) fallbackUrl =
             (if image_ok w i film Banner then "/images/" +:+ id film +:+ "-banner.webp"
              else fallbackUrl))
    ∧ (∀ k, k ∉ id <$> films ∨ k = "__proto__" →
         Images.getFilmPoster m k fallbackUrl = fallbackUrl
         ∧ Images.getFilmBanner m k fallbackUrl = fallbackUrl
         ∧ PlaceholderImages.getFilmPoster m k = "/images/placeholder.webp"
         ∧ PlaceholderImages.getFilmBanner m k = "/images/placeholder.webp").
Proof.
  intros Hprobe Hfetch Hwrite Hnd.
  destruct (main_completes w films Hprobe Hfetch Hwrite) as (_ & Hfile & _).
  eexists. split; [exact Hfile|]. split.
  - intros i film Hi Hkey. unfold Images.getFilmPoster, Images.getFilmBanner.
    rewrite (films_mapping_lookup w films 0 i ∅ film Hnd Hi Hkey). simpl.
    destruct (image_ok w i film Poster), (image_ok w i film Banner); done.
  - intros k Hk.
    assert (films_mapping w 0 films ∅ !! k = None) as Hnone.
    { destruct Hk as [Hk| ->].
      - rewrite films_mapping_other by done. apply lookup_empty.
      - rewrite films_mapping_proto. apply lookup_empty. }
    unfold Images.getFilmPoster, Images.getFilmBanner,
      PlaceholderImages.getFilmPoster, PlaceholderImages.getFilmBanner.
    by rewrite Hnone.
Qed.

Lemma helpers_on_written_mapping_witness :
  ∃ m, mapping_file (final (main (sample_world mixed))) = Some m
    ∧ (∀ i film, sample_films !! i = Some film → id film ≠ "__proto__" →
         Images.getFilmPoster m (id film) "fallback" =
           (if image_ok (sample_world mixed) i film Poster
            then "/images/" +:+ id film +:+ "-poster.webp"
            else "fallback")
         ∧ Images.getFilmBanner m (id film) "fallback" =
             (if image_ok (sample_world mixed) i film Banner
              then "/images/" +:+ id film +:+ "-banner.webp"
              else "fallback"))
    ∧ (∀ k, k ∉ id <$> sample_films ∨ k = "__proto__" →
         Images.getFilmPoster m k "fallback" = "fallback"
         ∧ Images.getFilmBanner m k "fallback" = "fallback"
         ∧ PlaceholderImages.getFilmPoster m k = "/images/placeholder.webp"
         ∧ PlaceholderImages.getFilmBanner m k = "/images/placeholder.webp").
Proof.
  apply (helpers_on_written_mapping (sample_world mixed) sample_films "fallback");
    [reflexivity | reflexivity | reflexivity | apply sample_ids_distinct].
Defined.

Lemma js_or_nonempty (a : option string) (b : string) : b ≠ "" → js_or a b ≠ "".
Proof. intros Hb. by destruct a as [[|c s]|]. Qed.

(** Whatever the mapping holds, the helpers never return the empty
    string when the fallback is not empty; the variant with the fixed
    placeholder never returns it at all. *)
Theorem helpers_never_return_empty (mapping : ImageMapping) (filmId fallbackUrl : string) :
  (fallbackUrl ≠ "" →
     Images.getFilmPoster mapping filmId fallbackUrl ≠ ""
     ∧ Images.getFilmBanner mapping filmId fallbackUrl ≠ "")
  ∧ PlaceholderImages.getFilmPoster mapping filmId ≠ ""
  ∧ PlaceholderImages.getFilmBanner mapping filmId ≠ "".
Proof.
  split; [intros Hf; split|split]; by apply js_or_nonempty.
Qed.

Lemma helpers_never_return_empty_witness :
  Images.getFilmPoster sample_mapping "totoro" "https://img.example/totoro.jpg" ≠ ""
  ∧ Images.getFilmBanner sample_mapping "totoro" "https://img.example/totoro.jpg" ≠ "".
Proof.
  apply (proj1 (helpers_never_return_empty sample_mapping "totoro"
                  "https://img.example/totoro.jpg")).
  discriminate.
Defined.

(** * The URL helpers *)

Module ApiFacts.
Import Api.

Lemma app_nil_r_string (s : string) : s +:+ "" = s.
Proof. induction s as [|c s IH]; [done|]. by rewrite app_cons_string, IH. Qed.

Lemma split_slash_not_nil (s : string) : split_slash s ≠ [].
Proof.
  destruct s as [|c s]; simpl; [done|].
  destruct (Ascii.eqb c "/"); [done|]. by destruct (split_slash s).
Qed.

(** Splitting around a slash splits each side. *)
Lemma split_slash_app (a b : string) :
  split_slash (a +:+ String "/" b) = split_slash a ++ split_slash b.
Proof.
  induction a as [|c a IH]; [done|].
  rewrite app_cons_string. simpl. rewrite IH.
  destruct (Ascii.eqb c "/"); [done|].
  pose proof (split_slash_not_nil a). by destruct (split_slash a).
Qed.

Lemma split_slash_no_slash (s : string) : no_slash s = true → split_slash s = [s].
Proof.
  induction s as [|c s IH]; simpl; [done|].
  destruct (Ascii.eqb c "/"); simpl; [done|]. intros H. by rewrite IH.
Qed.

Lemma split_slash_slashes (n : nat) : split_slash (slashes n) = replicate (S n) "".
Proof. induction n as [|n IH]; simpl; [done|]. by rewrite IH. Qed.

Lemma split_slash_segment (seg : string) (n : nat) :
  no_slash seg = true → split_slash (seg +:+ slashes n) = seg :: replicate n "".
Proof.
  intros Hseg. destruct n as [|n]; simpl.
  - rewrite app_nil_r_string. by apply split_slash_no_slash.
  - rewrite split_slash_app, split_slash_no_slash, split_slash_slashes by done. done.
Qed.

Lemma filter_empty_parts (n : nat) :
  filter (λ part, 0 < String.length part) (replicate n "") = [].
Proof.
  induction n as [|n IH]; simpl; [done|].
  rewrite filter_cons_False by (simpl; lia). done.
Qed.

Lemma js_index_last (l : list string) (x : string) :
  js_index (l ++ [x]) (Z.of_nat (length (l ++ [x])) - 1) = Some x.
Proof.
  unfold js_index. rewrite length_app. simpl.
  destruct (Z.ltb_spec (Z.of_nat (length l + 1) - 1) 0) as [?|_]; [lia|].
  replace (Z.to_nat (Z.of_nat (length l + 1) - 1)) with (length l + 0) by lia.
  by rewrite lookup_app_r, Nat.add_comm, Nat.add_sub by lia.
Qed.

Lemma split_slash_single_empty (s : string) : split_slash s = [""] → s = "".
Proof.
  destruct s as [|c s]; simpl; [done|].
  pose proof (split_slash_not_nil s).
  destruct (Ascii.eqb c "/"); destruct (split_slash s); done.
Qed.

(** Lines 179-186.  For a URL that ends in a segment, followed by any
    number of slashes, [isValidResourceUrl] answers whether that
    segment is other than the five collection names: the URL of a
    collection is rejected, with or without trailing slashes, and the
    URL of anything else is accepted, whatever comes before the
    segment. *)
Theorem last_segment_decides (base seg : string) (n : nat) :
  seg ≠ "" →
  no_slash seg = true →
  isValidResourceUrl (Some (base +:+ "/" +:+ seg +:+ slashes n)) =
    negb (bool_decide (seg ∈ ["people"; "locations"; "species"; "vehicles"; "films"])).
Proof.
  intros Hne Hseg. unfold isValidResourceUrl.
  destruct (base +:+ "/" +:+ seg +:+ slashes n) as [|c u] eqn:Hurl.
  { apply (f_equal String.length) in Hurl.
    rewrite !app_length_string in Hurl. simpl in Hurl. lia. }
  rewrite <- Hurl. clear Hurl c u.
  change ("/" +:+ seg +:+ slashes n) with (String "/" (seg +:+ slashes n)).
  rewrite split_slash_app, split_slash_segment by done.
  rewrite filter_app, filter_cons_True by (destruct seg; simpl; [done|lia]).
  rewrite filter_empty_parts.
  rewrite js_index_last. done.
Qed.

Lemma last_segment_decides_witness :
  isValidResourceUrl (Some ("https://ghibliapi.vercel.app" +:+ "/" +:+ "people" +:+ slashes 1))
    = false
  ∧ isValidResourceUrl
      (Some ("https://ghibliapi.vercel.app/people" +:+ "/"
               +:+ "ba924631-068e-4436-b6de-f3283fa848f0" +:+ slashes 0))
    = true.
Proof.
  split.
  - apply (last_segment_decides "https://ghibliapi.vercel.app" "people" 1);
      [discriminate | reflexivity].
  - apply (last_segment_decides "https://ghibliapi.vercel.app/people"
             "ba924631-068e-4436-b6de-f3283fa848f0" 0);
      [discriminate | reflexivity].
Defined.

(** Lines 179-186, the edges: a missing or empty URL is rejected, and a
    URL made of slashes only, which has no segment at all, is
    accepted. *)
Theorem url_without_segment (n : nat) :
  isValidResourceUrl None = false
  ∧ isValidResourceUrl (Some "") = false
  ∧ isValidResourceUrl (Some (slashes (S n))) = true.
Proof.
  split; [done|]. split; [done|].
  unfold isValidResourceUrl. simpl slashes. cbv iota.
  change (String "/" (slashes n)) with (slashes (S n)).
  rewrite split_slash_slashes, filter_empty_parts. done.
Qed.

(** Lines 191-194.  [extractIdFromUrl] returns the last segment of a
    URL, with or without one trailing slash, and a string without any
    slash unchanged. *)
Theorem extract_last_segment (base seg : string) :
  seg ≠ "" →
  no_slash seg = true →
  extractIdFromUrl (base +:+ "/" +:+ seg) = Some seg
  ∧ extractIdFromUrl (base +:+ "/" +:+ seg +:+ "/") = Some seg
  ∧ extractIdFromUrl seg = Some seg.
Proof.
  intros Hne Hseg. unfold extractIdFromUrl. split; [|split].
  - change ("/" +:+ seg) with (String "/" seg).
    rewrite split_slash_app, (split_slash_no_slash seg) by done.
    rewrite js_index_last. destruct seg; [by destruct Hne|done].
  - change ("/" +:+ seg +:+ "/") with (String "/" (seg +:+ slashes 1)).
    rewrite split_slash_app, split_slash_segment by done.
    change (seg :: replicate 1 "") with ([seg] ++ [""]).
    rewrite app_assoc, js_index_last.
    rewrite length_app. simpl. unfold js_index.
    destruct (Z.ltb_spec (Z.of_nat (length (split_slash base ++ [seg]) + 1) - 2) 0)
      as [Hlt|_]; [rewrite length_app in Hlt; simpl in Hlt; lia|].
    rewrite lookup_app_l by (rewrite !length_app; simpl; lia).
    rewrite length_app. simpl.
    replace (Z.to_nat (Z.of_nat (length (split_slash base) + 1 + 1) - 2))
      with (length (split_slash base) + 0) by lia.
    by rewrite lookup_app_r, Nat.add_comm, Nat.add_sub by lia.
  - rewrite split_slash_no_slash by done. simpl. unfold js_index. simpl.
    destruct seg; [by destruct Hne|done].
Qed.

Lemma extract_last_segment_witness :
  extractIdFromUrl ("https://ghibliapi.vercel.app/people" +:+ "/"
                      +:+ "ba924631-068e-4436-b6de-f3283fa848f0")
    = Some "ba924631-068e-4436-b6de-f3283fa848f0"
  ∧ extractIdFromUrl ("https://ghibliapi.vercel.app/people" +:+ "/"
                        +:+ "ba924631-068e-4436-b6de-f3283fa848f0" +:+ "/")
    = Some "ba924631-068e-4436-b6de-f3283fa848f0"
  ∧ extractIdFromUrl "ba924631-068e-4436-b6de-f3283fa848f0"
    = Some "ba924631-068e-4436-b6de-f3283fa848f0".
Proof.
  apply (extract_last_segment "https://ghibliapi.vercel.app/people"
           "ba924631-068e-4436-b6de-f3283fa848f0");
    [discriminate | reflexivity].
Defined.

(** Lines 191-194, the edges: the result is [undefined] for the empty
    string and for no other input, although the declared return type
    is [string]; and a URL that ends in two slashes gives the empty
    string. *)
Theorem extract_undefined_iff_empty (url : string) :
  (extractIdFromUrl url = None ↔ url = "")
  ∧ extractIdFromUrl (url +:+ "//") = Some "".
Proof.
  split; [split|].
  - unfold extractIdFromUrl. intros H.
    pose proof (split_slash_not_nil url) as Hnil.
    destruct (split_slash url) as [|p0 ps] eqn:Hs using rev_ind; [done|].
    clear IHps. rewrite js_index_last in H.
    destruct p0 as [|c s]; [|done].
    destruct ps as [|q ps].
    + by apply split_slash_single_empty.
    + exfalso. revert H. unfold js_index. rewrite length_app. simpl.
      destruct (Z.ltb_spec (Z.of_nat (S (length ps + 1)) - 2) 0) as [?|_]; [lia|].
      intros H. apply lookup_ge_None in H. simpl in H. rewrite length_app in H.
      simpl in H. lia.
  - by intros ->.
  - unfold extractIdFromUrl.
    change "//" with (String "/" (slashes 1)).
    rewrite split_slash_app, split_slash_slashes. simpl replicate.
    change (split_slash url ++ [""; ""]) with (split_slash url ++ [""] ++ [""]).
    rewrite app_assoc, js_index_last.
    rewrite length_app. simpl length. unfold js_index.
    destruct (Z.ltb_spec (Z.of_nat (length (split_slash url ++ [""]) + 1) - 2) 0)
      as [Hlt|_]; [rewrite length_app in Hlt; simpl in Hlt; lia|].
    rewrite lookup_app_l by (rewrite !length_app; simpl; lia).
    rewrite length_app. simpl.
    replace (Z.to_nat (Z.of_nat (length (split_slash url) + 1 + 1) - 2))
      with (length (split_slash url) + 0) by lia.
    by rewrite lookup_app_r, Nat.add_comm, Nat.add_sub by lia.
Qed.

End ApiFacts.

(** * [convertToWebP] in full *)

(** [convertToWebP] changes no file other than its input and its
    output, and never the mapping, the counter or the mapping file;
    it returns only when the encoder succeeded, and then the input
    is gone; and whenever it throws it has logged the failure of the
    conversion first. *)
Theorem convertToWebP_frame (res : option N) (inputPath outputPath : string) (st : State) :
  ∃ o st', convertToWebP res inputPath outputPath st = (o, st')
    ∧ (∀ p, p ≠ inputPath → p ≠ outputPath → disk st' !! p = disk st !! p)
    ∧ imageMapping st' = imageMapping st
    ∧ downloadedCount st' = downloadedCount st
    ∧ mapping_file st' = mapping_file st
    ∧ (o = Returned tt → is_Some res ∧ disk st' !! inputPath = None)
    ∧ (∀ e, o = Thrown e →
         last (events st') = Some (ConsoleError (LogFailedConvert inputPath e))).
Proof.
  unfold convertToWebP, convertToWebP_q, exec_cwebp, unlinkSync. js_step.
  destruct res as [size|]; simpl;
    [destruct (<[outputPath := size]> (disk st) !! inputPath) eqn:Hin; simpl|];
    eexists _, _; (split; [done|]); simpl; repeat split; try done;
    try (by eexists);
    try apply lookup_delete_eq;
    try (intros p H1 H2; by rewrite ?lookup_delete_ne, ?lookup_insert_ne);
    try (intros e [= <-]; by rewrite last_snoc).
Qed.
